(** * koa-sample-web-app-api-mysql: request handlers, middleware and mail glue

    A shallow embedding of the handlers of the three Koa apps (www, admin,
    api) and of the mailer, and the properties their description states.

    Conventions of the embedding.
    - A JavaScript string is a [string]: a sequence of code units below 256.
    - [null]/[undefined] fields that the code only tests with [== null] or
      for truthiness are [option] fields; where the code distinguishes the
      two, the value type [JsVal] is used.
    - A JavaScript object used as a dictionary is a [gmap string _] of its
      own properties. Where the code indexes an object by a name it reads
      from its input (the parser of SMTP_CONNECTION), what the object
      inherits from [Object.prototype] is part of the model.
    - Code that can throw returns an [outcome]; code that also changes the
      Koa context, the database or a module variable runs in the monad [M]
      over that state. The properties of the Koa context are plain fields;
      the setter of [ctx.status], which refuses what is no status code, is
      modelled where the code assigns a status it reads from an error.
    - Functions of Node, of npm packages and of modules that are not part of
      the handlers (the clock, [Date.parse], [JSON.stringify], SHA-1, the
      user model, [fetch], regular expressions) are [Variable]s of the
      section that embeds the handler; each part ends with a small
      instance on which the handlers run. *)

From stdpp Require Import gmap strings list pretty.
From Stdlib Require Import ZArith Ascii QArith Qcanon.
From Stdlib Require String.

Close Scope Qc_scope.
Close Scope Q_scope.

Set Warnings "-register-all".

(* ================================================================== *)
(** ** JavaScript strings *)
(* ================================================================== *)

Module JsString.

(** Code units removed by [String.prototype.trim] (WhiteSpace and
    LineTerminator) that fit in one byte: TAB, LF, VT, FF, CR, SP, NBSP. *)
Definition is_white (c : ascii) : bool :=
  let n := nat_of_ascii c in
  (Nat.eqb n 9 || Nat.eqb n 10 || Nat.eqb n 11 || Nat.eqb n 12
   || Nat.eqb n 13 || Nat.eqb n 32 || Nat.eqb n 160)%bool.

Fixpoint trim_start (s : string) : string :=
  match s with
  | String c s' => if is_white c then trim_start s' else s
  | EmptyString => EmptyString
  end.

Fixpoint trim_end (s : string) : string :=
  match s with
  | EmptyString => EmptyString
  | String c s' =>
      match trim_end s' with
      | EmptyString => if is_white c then EmptyString else String c EmptyString
      | r => String c r
      end
  end.

(** [s.trim()] *)
Definition trim (s : string) : string := trim_end (trim_start s).

(** [s.split(c)] for a one-character separator: never the empty list. *)
Fixpoint split (c : ascii) (s : string) : list string :=
  match s with
  | EmptyString => [EmptyString]
  | String a s' =>
      if Ascii.eqb a c then EmptyString :: split c s'
      else match split c s' with
           | h :: t => String a h :: t
           | [] => [String a EmptyString]
           end
  end.

(** [s.startsWith(p)] *)
Fixpoint starts_with (p s : string) : bool :=
  match p, s with
  | EmptyString, _ => true
  | String a p', String b s' => Ascii.eqb a b && starts_with p' s'
  | String _ _, EmptyString => false
  end.

(** [s.slice(n)] *)
Fixpoint drop (n : nat) (s : string) : string :=
  match n, s with
  | O, _ => s
  | S n', String _ s' => drop n' s'
  | S _, EmptyString => EmptyString
  end.

(** [s.indexOf(p) >= 0], i.e. a match of the regular expression made of
    the literal [p]. *)
Fixpoint contains (p s : string) : bool :=
  starts_with p s ||
  match s with
  | EmptyString => false
  | String _ s' => contains p s'
  end.

(** [s.replace(p, r)] for a string pattern [p] and a replacement [r]
    without [$]: the first occurrence of [p] is replaced, and [s] is
    returned as it is when there is none. *)
Fixpoint replace (p r s : string) : string :=
  if starts_with p s then r +:+ drop (String.length p) s
  else match s with
       | EmptyString => EmptyString
       | String a s' => String a (replace p r s')
       end.

(** The text that follows the first occurrence of [p] in [s]. *)
Fixpoint after_first (p s : string) : option string :=
  if starts_with p s then Some (drop (String.length p) s)
  else match s with
       | EmptyString => None
       | String _ s' => after_first p s'
       end.

(** The longest prefix without a line terminator: what [.*] matches. *)
Fixpoint line (s : string) : string :=
  match s with
  | EmptyString => EmptyString
  | String a s' =>
      if (Nat.eqb (nat_of_ascii a) 10 || Nat.eqb (nat_of_ascii a) 13)%bool
      then EmptyString else String a (line s')
  end.

(** Truthiness of a string: only the empty string is falsy. *)
Definition truthy (s : string) : bool := negb (String.eqb s EmptyString).

(** The character occurs in the string. *)
Fixpoint has (c : ascii) (s : string) : bool :=
  match s with
  | EmptyString => false
  | String a s' => Ascii.eqb a c || has c s'
  end.

(** Only white space. *)
Fixpoint blank (s : string) : bool :=
  match s with
  | EmptyString => true
  | String c s' => is_white c && blank s'
  end.

End JsString.

(* ================================================================== *)
(** ** JavaScript values, errors and outcomes *)
(* ================================================================== *)

Inductive JsVal :=
  | VUndef
  | VNull
  | VStr (s : string)
  | VNum (n : Z)
  | VBool (b : bool)
  | VObj (o : gmap string JsVal).

(** ToBoolean. Numbers are integers here, so NaN does not occur. *)
Definition truthy (v : JsVal) : bool :=
  match v with
  | VUndef | VNull => false
  | VStr s => JsString.truthy s
  | VNum n => negb (n =? 0)%Z
  | VBool b => b
  | VObj _ => true
  end.

(** [a || b] *)
Definition js_or (a b : JsVal) : JsVal := if truthy a then a else b.

(** [o[k]] on a dictionary: [undefined] for a missing key. *)
Definition get (o : gmap string JsVal) (k : string) : JsVal :=
  default VUndef (o !! k).

(** An [Error] object: the three properties the handlers read or delete.
    A missing property is [None]; a status is a whole number, as the
    errors of [ctx.throw] have it. *)
Record Error := mkError {
  err_status : option Z;
  err_message : option string;
  err_stack : option string;
}.

(** A [TypeError] raised by the engine; its message is engine-defined. *)
Definition TypeError (msg : string) : Error :=
  {| err_status := None; err_message := Some msg;
     err_stack := Some ("TypeError: " +:+ msg) |}.

(** An [AssertionError] of Node's [assert]. *)
Definition AssertionError (msg : string) : Error :=
  {| err_status := None; err_message := Some msg;
     err_stack := Some ("AssertionError: " +:+ msg) |}.

(** The result of running code that can throw. *)
Inductive outcome (A : Type) :=
  | Done (a : A)
  | Throws (e : Error).
Arguments Done {A} a.
Arguments Throws {A} e.

#[global] Instance outcome_fmap : FMap outcome :=
  λ A B f x, match x with
             | Done a => Done (f a)
             | Throws e => Throws e
             end.

Definition bind {A B} (x : outcome A) (f : A → outcome B) : outcome B :=
  match x with
  | Done a => f a
  | Throws e => Throws e
  end.

Notation "x ← y ;;; z" := (bind y (λ x, z))
  (at level 20, y at level 100, z at level 200, only parsing).

(** Code that also changes a state [S]: the state is returned on both
    paths, as what was written before a throw stays written. *)
Definition M (S A : Type) : Type := S → outcome A * S.

Definition ret {S A} (a : A) : M S A := λ s, (Done a, s).

Definition throw {S A} (e : Error) : M S A := λ s, (Throws e, s).

Definition bindM {S A B} (m : M S A) (f : A → M S B) : M S B :=
  λ s, match m s with
       | (Done a, s') => f a s'
       | (Throws e, s') => (Throws e, s')
       end.

(** [try { m } catch (e) { h e }] *)
Definition try_catch {S A} (m : M S A) (h : Error → M S A) : M S A :=
  λ s, match m s with
       | (Done a, s') => (Done a, s')
       | (Throws e, s') => h e s'
       end.

Definition lift {S A} (x : outcome A) : M S A := λ s, (x, s).

Definition modify {S} (f : S → S) : M S unit := λ s, (Done tt, f s).

Definition read {S A} (f : S → A) : M S A := λ s, (Done (f s), s).

Notation "x ← y ; z" := (bindM y (λ x, z))
  (at level 20, y at level 100, z at level 200, only parsing).
Notation "y ;; z" := (bindM y (λ _, z))
  (at level 100, z at level 200, only parsing, right associativity).

(* ================================================================== *)
(** ** lib/mail.js: the SMTP transporter *)
(* ================================================================== *)

Module Mail.

(** *** The configuration object *)

(** [smtpConfig] starts as the object literal [{}] and is read and written
    with [config[key]]: a name that is no own property is looked up in
    [Object.prototype], and the name [__proto__] is the accessor of the
    prototype itself. These are the other properties [Object.prototype]
    defines, all of them functions ([constructor] is [Object]). *)
Definition Object_prototype : list string :=
  [ "constructor"; "hasOwnProperty"; "isPrototypeOf"; "propertyIsEnumerable";
    "toLocaleString"; "toString"; "valueOf"; "__defineGetter__";
    "__defineSetter__"; "__lookupGetter__"; "__lookupSetter__" ].

(** The configuration: its own properties; the names among them whose
    object is the function that [Object.prototype] holds under that name
    (an object is given by the properties written on it, so such a
    function by what the parser wrote on it); and what the parser wrote on
    [Object.prototype], which the configuration and the objects in it
    inherit. A parse starts from [Object.prototype] as the engine provides
    it. *)
Record Config := mkConfig {
  own : gmap string JsVal;
  functions : gset string;
  prototype : gmap string JsVal;
}.

(** [{}] *)
#[global] Instance config_empty : Empty Config :=
  {| own := ∅; functions := ∅; prototype := ∅ |}.

(** The own property [k] of a configuration. *)
#[global] Instance config_lookup : Lookup string JsVal Config :=
  λ k config, own config !! k.

(** A configuration with these own properties that holds no function and
    inherits nothing but what the engine provides. *)
Definition plain (o : gmap string JsVal) : Config :=
  {| own := o; functions := ∅; prototype := ∅ |}.

(** [config[k]] for a name [k] that the engine's [Object.prototype] does
    not define. *)
Definition property (config : Config) (k : string) : JsVal :=
  match own config !! k with
  | Some v => v
  | None => default VUndef (prototype config !! k)
  end.

(** [config[k] = v]: the setter of [__proto__] ignores a value that is
    neither an object nor null; every other name becomes an own
    property. *)
Definition set_own (k : string) (v : JsVal) (config : Config) : Config :=
  if String.eqb k "__proto__" then config
  else {| own := <[k := v]> (own config);
          functions := functions config ∖ {[k]};
          prototype := prototype config |}.

(** [o[k1] = val] for an object [o] and a string or [undefined] [val]. *)
Definition assign (k1 : string) (val : JsVal) (o : gmap string JsVal)
  : gmap string JsVal :=
  if String.eqb k1 "__proto__" then o else <[k1 := val]> o.

(** What [config[k0] = config[k0] || {}] leaves in [config[k0]]: an
    object, a function of [Object.prototype], or a truthy primitive. *)
Inductive Target :=
  | Object (o : gmap string JsVal)
  | Method (o : gmap string JsVal)
  | Primitive (v : JsVal).

Definition resolve (config : Config) (k0 : string) : Target :=
  match own config !! k0 with
  | Some (VObj o) =>
      if bool_decide (k0 ∈ functions config) then Method o else Object o
  | Some v => if truthy v then Primitive v else Object ∅
  | None =>
      match prototype config !! k0 with
      | Some (VObj o) => Object o
      | Some v => if truthy v then Primitive v else Object ∅
      | None =>
          if bool_decide (k0 ∈ Object_prototype) then Method ∅ else Object ∅
      end
  end.

(** The properties of the function [Object.prototype[k0]] that cannot be
    assigned: [name] and [length] of every function and [prototype] of
    [Object] are not writable, and the setters of [caller] and [arguments]
    throw. *)
Definition read_only (k0 k1 : string) : bool :=
  bool_decide (k1 ∈ ["name"; "length"; "caller"; "arguments"])
  || (String.eqb k0 "constructor" && String.eqb k1 "prototype").

Section Transporter.

(** ECMAScript's StringToNumber, restricted to what [== 465] can see:
    [Some n] when the string denotes the integer [n], [None] when it
    denotes no integer (NaN, a fraction, an infinity). *)
Variable StringToNumber : string → option Z.

(** [v == n] for a number [n]. An object is converted by its [valueOf]
    and [toString]: those of [Object.prototype] give ["[object Object]"],
    which is NaN, and with a [toString] that is no function (one the
    parser wrote) the conversion throws. *)
Definition loose_eq_num (config : Config) (v : JsVal) (n : Z) : outcome bool :=
  match v with
  | VStr s => Done (bool_decide (StringToNumber s = Some n))
  | VNum m => Done (m =? n)%Z
  | VBool b => Done ((if b then 1 else 0) =? n)%Z
  | VUndef | VNull => Done false
  | VObj o =>
      if bool_decide (is_Some (o !! "toString"))
         || bool_decide (is_Some (prototype config !! "toString"))
      then Throws (TypeError "Cannot convert object to primitive value")
      else Done false
  end.

(** [process.env.SMTP_CONNECTION.split(';').map(v => v.trim().split('='))] *)
Definition smtpKeyVal (env : string) : list (list string) :=
  (λ v, JsString.split "=" (JsString.trim v)) <$> JsString.split ";" env.

(** The second element of [[ key, val ] = keyVal]. *)
Definition val_of (rest : list string) : JsVal :=
  match rest with
  | [] => VUndef
  | v :: _ => VStr v
  end.

(** The callback of [smtpKeyVal.reduce]. The module is an ES module, hence
    strict: an assignment that fails throws. On a primitive only the
    assignment of [__proto__] does not fail (its setter returns at
    once). *)
Definition reduce_step (config : Config) (keyVal : list string) : outcome Config :=
  match keyVal with
  | [] => Throws (TypeError "Cannot read property 'split' of undefined")
  | key :: rest =>
      let val := val_of rest in
      match JsString.split "." key with
      | [] => Done config (* split never returns the empty array *)
      | [k0] => Done (set_own k0 val config)
      | k0 :: k1 :: _ =>
          if String.eqb k0 "__proto__"
          then Done {| own := own config; functions := functions config;
                       prototype := assign k1 val (prototype config) |}
          else
            match resolve config k0 with
            | Object o =>
                Done {| own := <[k0 := VObj (assign k1 val o)]> (own config);
                        functions := functions config ∖ {[k0]};
                        prototype := prototype config |}
            | Method o =>
                if read_only k0 k1
                then Throws (TypeError "Cannot assign to read only property")
                else Done {| own := <[k0 := VObj (assign k1 val o)]> (own config);
                             functions := functions config ∪ {[k0]};
                             prototype := prototype config |}
            | Primitive v =>
                if String.eqb k1 "__proto__" then Done (set_own k0 v config)
                else Throws (TypeError "Cannot create property on primitive")
            end
      end
  end.

Fixpoint reduce (config : Config) (l : list (list string)) : outcome Config :=
  match l with
  | [] => Done config
  | keyVal :: l' => config' ← reduce_step config keyVal ;;; reduce config' l'
  end.

(** [if (smtpConfig.port) smtpConfig.secure = smtpConfig.port == 465] *)
Definition add_secure (config : Config) : outcome Config :=
  if truthy (property config "port")
  then secure ← loose_eq_num config (property config "port") 465 ;;;
       Done (set_own "secure" (VBool secure) config)
  else Done config.

Definition smtpConfig (env : string) : outcome Config :=
  config ← reduce ∅ (smtpKeyVal env) ;;; add_secure config.

(** [Mail.transporter]: the transport is created from the environment on
    first use and kept in the module variable [transport]. A transport
    is identified with the options it was created from. *)
Definition transporter (transport : option Config)
    (SMTP_CONNECTION : option string)
  : outcome (Config * option Config) :=
  match transport with
  | Some t => Done (t, Some t)
  | None =>
      match SMTP_CONNECTION with
      | None => Throws (TypeError "Cannot read property 'split' of undefined")
      | Some env => t ← smtpConfig env ;;; Done (t, Some t)
      end
  end.

End Transporter.

(** *** Sending *)

Record User := mkUser {
  UserId : Z;
  Email : string;
}.

Record Message := mkMessage {
  to : string;
  from : string;
  subject : string;
  html : option string;
  text : string;
  headers : list (string * string);
}.

(** What the mailer reads of the Koa context: [ctx.app.env] and the id of
    [ctx.state.user], [None] when nobody is logged in. *)
Record Ctx := mkCtx {
  app_env : string;
  state_user : option Z;
}.

(** The module variable [transport] and the messages handed to
    [sendMail], oldest first. *)
Record World := mkWorld {
  transport : option Config;
  outbox : list Message;
}.

Section Send.

Variable StringToNumber : string → option Z.
(** [process.env.SMTP_CONNECTION] *)
Variable SMTP_CONNECTION : option string.
(** [global.it], as a truth value *)
Variable global_it : bool.
(** [User.get(id)]: the row, [None] for [null] *)
Variable User_get : Z → option User.
(** [fs.readFile(path, 'utf8')] *)
Variable readFile : string → outcome string.
(** [handlebars.compile(templateHtml)(context)] *)
Variable Context : Type.
Variable handlebars : string → Context → outcome string.
(** [new JSDOM(html).window.document.querySelector('title')], as the
    element's [textContent]; [None] when there is no such element. *)
Variable title : string → option string.
(** [htmlToText.fromString(html)] *)
Variable htmlToText : string → string.

(** [Mail.from] *)
Definition Mail_from : string := "noreply@movable-type.co.uk".

(** [Object.assign(message, { to: currentUser.Email, headers: { 'X-Orig-To': to } })] *)
Definition redirect (message : Message) (currentUser : User) (to0 : string) : Message :=
  {| to := Email currentUser; from := from message; subject := subject message;
     html := html message; text := text message;
     headers := [("X-Orig-To", to0)] |}.

(** [await Mail.transporter.sendMail(message)] *)
Definition sendMail (message : Message) : M World unit :=
  λ w, match transporter StringToNumber (transport w) SMTP_CONNECTION with
       | Done (_, cache) =>
           (Done tt, {| transport := cache; outbox := outbox w ++ [message] |})
       | Throws e => (Throws e, w)
       end.

(** The part the three senders share, from the comment "don't send e-mail
    to live indicated recipient in dev/staging" to the end. *)
Definition dispatch (to0 : string) (message : Message) (ctx : Ctx) : M World unit :=
  if negb (String.eqb (app_env ctx) "production")
     && negb (bool_decide (is_Some (state_user ctx)))
  then ret tt
  else
    message' ←
      (if negb (String.eqb (app_env ctx) "production") then
         match state_user ctx with
         | None => throw (TypeError "Cannot read property 'id' of undefined")
         | Some id =>
             match User_get id with
             | None => throw (TypeError "Cannot read property 'Email' of null")
             | Some currentUser => ret (redirect message currentUser to0)
             end
         end
       else ret message) ;
    sendMail message'.

Definition send (to0 template : string) (context : Context) (ctx : Ctx) : M World unit :=
  if global_it then ret tt
  else
    templateHtml ← lift (readFile ("app-admin/templates/" +:+ template +:+ ".html")) ;
    html0 ← lift (handlebars templateHtml context) ;
    subject0 ← match title html0 with
               | Some t => ret t
               | None => throw (TypeError "Cannot read property 'textContent' of null")
               end ;
    let message := {| to := to0; from := Mail_from; subject := subject0;
                      html := Some html0; text := htmlToText html0; headers := [] |} in
    dispatch to0 message ctx.

Definition sendHtml (to0 subject0 html0 : string) (ctx : Ctx) : M World unit :=
  if global_it then ret tt
  else
    let message := {| to := to0; from := Mail_from; subject := subject0;
                      html := Some html0; text := htmlToText html0; headers := [] |} in
    dispatch to0 message ctx.

Definition sendText (to0 subject0 text0 : string) (ctx : Ctx) : M World unit :=
  if global_it then ret tt
  else
    let message := {| to := to0; from := Mail_from; subject := subject0;
                      html := None; text := text0; headers := [] |} in
    dispatch to0 message ctx.

(** Outside production nothing goes to the recipient the caller named: the
    outbox is as before, or has one more message, addressed to the
    logged-in user and carrying the named recipient in [X-Orig-To]. *)
Definition dev_safe (to0 : string) (ctx : Ctx) (run : M World unit) : Prop :=
  ∀ w,
    (state_user ctx = None → outbox (run w).2 = outbox w)
    ∧ (outbox (run w).2 = outbox w
       ∨ ∃ id currentUser m,
           state_user ctx = Some id ∧ User_get id = Some currentUser
           ∧ outbox (run w).2 = outbox w ++ [m]
           ∧ to m = Email currentUser
           ∧ headers m = [("X-Orig-To", to0)]).

End Send.

(** StringToNumber on plain decimal numerals, the instance used to run the
    parser on examples. *)
Fixpoint digits (acc : Z) (s : string) : option Z :=
  match s with
  | EmptyString => Some acc
  | String c s' =>
      let n := Z.of_nat (nat_of_ascii c) in
      if ((48 <=? n) && (n <=? 57))%Z then digits (10 * acc + (n - 48)) s'
      else None
  end.

Definition decimal (s : string) : option Z :=
  match s with
  | EmptyString => Some 0%Z
  | _ => digits 0 s
  end.

(** The top-level property a segment writes. *)
Definition head_key (keyVal : list string) : string :=
  match keyVal with
  | [] => EmptyString
  | key :: _ => hd EmptyString (JsString.split "." key)
  end.

(** A segment whose key has a dot. *)
Definition dotted (keyVal : list string) : bool :=
  match keyVal with
  | [] => false
  | key :: _ => bool_decide (1 < length (JsString.split "." key))
  end.

(** The second part of a key. *)
Definition second_key (keyVal : list string) : string :=
  match keyVal with
  | [] => EmptyString
  | key :: _ => hd EmptyString (tl (JsString.split "." key))
  end.

(** *** Connection strings *)

(** One [key=value] pair of a connection string, with the white space
    around it. *)
Record Segment := mkSegment {
  before : string;
  seg_key : string;
  seg_value : string;
  after : string;
}.

Definition pair_text (seg : Segment) : string :=
  seg_key seg +:+ String "=" (seg_value seg).

Definition segment_text (seg : Segment) : string :=
  before seg +:+ pair_text seg +:+ after seg.

(** The pair is all of the segment but the white space around it, the key
    ends at the first equals sign and the segment at the next semicolon. *)
Definition well_formed (seg : Segment) : bool :=
  JsString.blank (before seg) && JsString.blank (after seg)
  && negb (JsString.has ";" (seg_key seg))
  && negb (JsString.has "=" (seg_key seg))
  && negb (JsString.has ";" (seg_value seg))
  && String.eqb (JsString.trim (pair_text seg)) (pair_text seg).

(** The texts, separated by semicolons. *)
Fixpoint join (l : list string) : string :=
  match l with
  | [] => EmptyString
  | s :: l' =>
      match l' with
      | [] => s
      | _ => s +:+ String ";" (join l')
      end
  end.

Definition connection_string (segs : list Segment) : string :=
  join (segment_text <$> segs).

(** What the parser makes of the pairs: the key, and the value cut at its
    equals signs. *)
Definition tokens (segs : list Segment) : list (list string) :=
  (λ seg, seg_key seg :: JsString.split "=" (seg_value seg)) <$> segs.

(** *** What a configuration holds *)

(** Keys that stay clear of [Object.prototype]: no key is or begins with
    [__proto__]; a dotted key does not begin with the name of a function of
    [Object.prototype], its second part is not [__proto__], and it is not
    [port.toString]. *)
Definition ordinary (l : list (list string)) : bool :=
  forallb (λ kv,
    negb (String.eqb (head_key kv) "__proto__")
    && (negb (dotted kv)
        || (negb (bool_decide (head_key kv ∈ Object_prototype))
            && negb (String.eqb (second_key kv) "__proto__")
            && negb (String.eqb (head_key kv) "port"
                     && String.eqb (second_key kv) "toString")))) l.

(** A dotted key [a.b] that finds the non-empty value of a plain key [a]:
    no segment between the two writes [a], and neither [a] nor [b] is
    [__proto__]. *)
Definition clash (l : list (list string)) : Prop :=
  ∃ pre key v rest mid key' rest' post a b more,
    l = pre ++ (key :: v :: rest) :: mid ++ (key' :: rest') :: post
    ∧ JsString.split "." key = [a]
    ∧ v ≠ EmptyString
    ∧ Forall (λ kv, head_key kv ≠ a) mid
    ∧ JsString.split "." key' = a :: b :: more
    ∧ a ≠ "__proto__" ∧ b ≠ "__proto__".

(** Field [b] of the nested object at [a] holds [v]. *)
Definition has_field (config : Config) (a b : string) (v : JsVal) : Prop :=
  ∃ o, config !! a = Some (VObj o) ∧ o !! b = Some v.

(** A segment that overwrites field [b] of the object at [a]: a plain
    key [a], or a dotted key whose first two parts are [a] and [b]. *)
Definition overwrites (a b : string) (keyVal : list string) : Prop :=
  match keyVal with
  | [] => False
  | key :: _ =>
      match JsString.split "." key with
      | [] => False
      | [k0] => k0 = a
      | k0 :: k1 :: _ => k0 = a ∧ k1 = b
      end
  end.

(** What the configuration holds for the segments [l]: the last segment
    that writes a property decides it. *)
Definition stores_plain_keys (l : list (list string)) (config : Config) : Prop :=
  ∀ pre key rest post k,
    l = pre ++ (key :: rest) :: post →
    JsString.split "." key = [k] →
    Forall (λ kv, head_key kv ≠ k) post →
    k ≠ "__proto__" → k ≠ "secure" →
    config !! k = Some (val_of rest).

Definition stores_dotted_keys (l : list (list string)) (config : Config) : Prop :=
  ∀ pre key rest post a b more,
    l = pre ++ (key :: rest) :: post →
    JsString.split "." key = a :: b :: more →
    Forall (λ kv, ¬ overwrites a b kv) post →
    a ≠ "__proto__" → b ≠ "__proto__" → a ≠ "secure" →
    has_field config a b (val_of rest).

Definition adds_secure (StringToNumber : string → option Z)
    (l : list (list string)) (config : Config) : Prop :=
  ∀ pre p rest post,
    l = pre ++ ("port" :: p :: rest) :: post →
    Forall (λ kv, head_key kv ≠ "port") post →
    p ≠ EmptyString →
    config !! "secure" = Some (VBool (bool_decide (StringToNumber p = Some 465%Z))).

(** What the segments [pre] have made of the empty configuration when
    they stay clear of [Object.prototype]: a configuration of own
    properties only, in which what is no object is the value of the last
    segment that wrote the property, a plain key, and every field of an
    object was written by a dotted key. *)
Definition written_by (pre : list (list string)) (config : Config) : Prop :=
  functions config = ∅
  ∧ prototype config = ∅
  ∧ (∀ a v, config !! a = Some v →
       (∃ o, v = VObj o)
       ∨ ∃ p1 key rest p2,
           pre = p1 ++ (key :: rest) :: p2 ∧ JsString.split "." key = [a]
           ∧ v = val_of rest ∧ Forall (λ kv, head_key kv ≠ a) p2)
  ∧ (∀ a o b, config !! a = Some (VObj o) → is_Some (o !! b) →
       ∃ kv, kv ∈ pre ∧ dotted kv = true ∧ head_key kv = a ∧ second_key kv = b).

End Mail.

(** *** A developer's machine to run the mailer on *)

Module MailSample.
Import Mail.

Definition User_get (id : Z) : option User :=
  if (id =? 7)%Z then Some {| UserId := 7; Email := "dev@example.com" |} else None.

Definition readFile (file : string) : outcome string :=
  if String.eqb file "app-admin/templates/welcome.html"
  then Done "<title>Welcome</title>"
  else Throws {| err_status := None; err_message := Some "ENOENT"; err_stack := None |}.

Definition handlebars (templateHtml : string) (context : unit) : outcome string :=
  Done templateHtml.

Definition title (html0 : string) : option string :=
  if JsString.starts_with "<title>" html0 then Some "Welcome" else None.

Definition htmlToText (html0 : string) : string := "WELCOME".

Definition world : World := {| transport := None; outbox := [] |}.

Definition send (env : string) (user0 : option Z) :=
  send decimal (Some "service=gmail") false User_get readFile unit handlebars
    title htmlToText "guest@example.org" "welcome" tt
    {| app_env := env; state_user := user0 |}.

End MailSample.

(* ================================================================== *)
(** ** app-admin/routes-ajax.js: the relay to the API *)
(* ================================================================== *)

Module Ajax.

(** [Buffer]'s base64 alphabet. *)
Definition alphabet : string :=
  "ABCDEFGHIJKLMNOPQRSTUVWXYZabcdefghijklmnopqrstuvwxyz0123456789+/".

Definition sextet (n : Z) : ascii :=
  default "="%char (String.get (Z.to_nat (Z.land n 63)) alphabet).

Definition byte (c : ascii) : Z := Z.of_nat (nat_of_ascii c).

(** [new Buffer(str, 'binary').toString('base64')]: with the 'binary'
    encoding every code unit below 256 is one byte. *)
Fixpoint base64Encode (str : string) : string :=
  match str with
  | EmptyString => EmptyString
  | String a EmptyString =>
      let n := Z.shiftl (byte a) 16 in
      String (sextet (Z.shiftr n 18)) (String (sextet (Z.shiftr n 12)) "==")
  | String a (String b EmptyString) =>
      let n := Z.lor (Z.shiftl (byte a) 16) (Z.shiftl (byte b) 8) in
      String (sextet (Z.shiftr n 18)) (String (sextet (Z.shiftr n 12))
        (String (sextet (Z.shiftr n 6)) "="))
  | String a (String b (String c rest)) =>
      let n := Z.lor (Z.lor (Z.shiftl (byte a) 16) (Z.shiftl (byte b) 8)) (byte c) in
      String (sextet (Z.shiftr n 18)) (String (sextet (Z.shiftr n 12))
        (String (sextet (Z.shiftr n 6)) (String (sextet n) (base64Encode rest))))
  end.

(** The columns of a User row the relay reads. *)
Record User := mkUser {
  UserId : Z;
  ApiToken : option string;
}.

(** The incoming request, as the handler reads it from the Koa context. *)
Record Incoming (Json : Type) := mkIncoming {
  protocol : string;
  host : string;
  path : string;
  method : string;
  accept : option string;
  request_body : Json;
}.
Arguments protocol {Json} _.
Arguments host {Json} _.
Arguments path {Json} _.
Arguments method {Json} _.
Arguments accept {Json} _.
Arguments request_body {Json} _.

(** The arguments of [fetch]. *)
Record Outgoing := mkOutgoing {
  url : string;
  out_method : string;
  out_body : string;
  ContentType : string;
  Accept : option string;
  Authorization : string;
}.

(** [this.body] *)
Inductive Body (Json : Type) :=
  | Unset
  | Text (s : string)
  | Data (j : Json).
Arguments Unset {Json}.
Arguments Text {Json} s.
Arguments Data {Json} j.

(** What the handler uses of a [fetch] response. *)
Record Response (Json : Type) := mkResponse {
  resp_status : Z;
  content_type : option string;
  resp_json : outcome Json;
  resp_text : outcome string;
}.
Arguments resp_status {Json} _.
Arguments content_type {Json} _.
Arguments resp_json {Json} _.
Arguments resp_text {Json} _.

(** The state a request runs in: the user table, [this.passport.user],
    [this.status] and [this.body]. *)
Record State (Store Json : Type) := mkState {
  db : Store;
  user : option User;
  status : Z;
  body : Body Json;
}.
Arguments db {Store Json} _.
Arguments user {Store Json} _.
Arguments status {Store Json} _.
Arguments body {Store Json} _.

Section Relay.

Context {Store Json : Type}.

(** [User.update(id, { ApiToken: token })] and [User.get(id)] *)
Variable User_update : Store → Z → string → Store.
Variable User_get : Store → Z → option User.
(** [Date.parse]: [None] for NaN *)
Variable Date_parse : string → option Z.
(** [new Date(t).toISOString()] *)
Variable toISOString : Z → string.
(** [crypto.createHash('sha1').update(s).digest('hex')] *)
Variable sha1_hex : string → string.
(** [JSON.stringify] of a parsed request body *)
Variable JSON_stringify : Json → string.
(** [fetch(url, opts)]: the API serves the request from the same database;
    a rejected promise is a throw. *)
Variable fetch : Outgoing → M Store (Response Json).

Abbreviation St := (State Store Json).

(** [usr.ApiToken==null || Date.now()-Date.parse(usr.ApiToken)>1000*60*60*24];
    a comparison with NaN is false. *)
Definition expired (usr : User) (now : Z) : bool :=
  match ApiToken usr with
  | None => true
  | Some token =>
      match Date_parse token with
      | Some issued => (1000 * 60 * 60 * 24 <? now - issued)%Z
      | None => false
      end
  end.

Definition the_user : M St User :=
  λ s, match user s with
       | Some usr => (Done usr, s)
       | None => (Throws (TypeError "Cannot read property of null"), s)
       end.

(** The first statement of [getAjax]. [now] is the value of [Date.now()]
    and [today] the time of [new Date()]. *)
Definition renew (now today : Z) : M St unit :=
  usr ← the_user ;
  if expired usr now then
    modify (λ s, {| db := User_update (db s) (UserId usr) (toISOString today);
                    user := user s; status := status s; body := body s |}) ;;
    modify (λ s, {| db := db s; user := User_get (db s) (UserId usr);
                    status := status s; body := body s |})
  else ret tt.

(** [this.captures[0]] for the route, whose regular expression is /ajax/
    followed by a capturing group of any characters: what follows the
    first /ajax/ of the path, up to the end of the line; [None] when the
    route does not match. *)
Definition captures (path0 : string) : option string :=
  JsString.line <$> JsString.after_first "/ajax/" path0.

(** The url and the options passed to [fetch]. *)
Definition outgoing (resource : string) (inc : Incoming Json) : M St Outgoing :=
  let host0 := JsString.replace "admin" "api" (host inc) in
  let url0 := protocol inc +:+ "://" +:+ host0 +:+ "/" +:+ resource in
  let body0 := if String.eqb (JSON_stringify (request_body inc)) "{}"
               then EmptyString else JSON_stringify (request_body inc) in
  usr ← the_user ;
  let user0 := pretty (UserId usr) in
  match ApiToken usr with
  | None => throw (TypeError "Data must be a string or a buffer")
  | Some token =>
      let pass := sha1_hex token in
      ret {| url := url0; out_method := method inc; out_body := body0;
             ContentType := "application/json"; Accept := accept inc;
             Authorization := "Basic " +:+ base64Encode (user0 +:+ ":" +:+ pass) |}
  end.

(** [fetch] runs on the database of the state. *)
Definition call (req : Outgoing) : M St (Response Json) :=
  λ s, let '(r, d) := fetch req (db s) in
       (r, {| db := d; user := user s; status := status s; body := body s |}).

Definition set_status (n : Z) : M St unit :=
  modify (λ s, {| db := db s; user := user s; status := n; body := body s |}).

Definition set_body (b : Body Json) : M St unit :=
  modify (λ s, {| db := db s; user := user s; status := status s; body := b |}).

(** The [try] block, after [fetch] has answered. *)
Definition respond (response : Response Json) : M St unit :=
  json ← match content_type response with
         | Some ct => ret (JsString.contains "application/json" ct)
         | None => throw (TypeError "Cannot read property 'match' of null")
         end ;
  set_status (resp_status response) ;;
  if json : bool
  then (j ← lift (resp_json response) ; set_body (Data j))
  else (t ← lift (resp_text response) ; set_body (Text t)).

(** The [try] block. *)
Definition relay (req : Outgoing) : M St unit :=
  response ← call req ;
  respond response.

(** The [catch] block. *)
Definition failed (e : Error) : M St unit :=
  set_status 500 ;;
  set_body (match err_message e with Some m => Text m | None => Unset end).

Definition forward (resource : string) (inc : Incoming Json) : M St unit :=
  req ← outgoing resource inc ;
  try_catch (relay req) failed.

Definition getAjax (resource : string) (now today : Z) (inc : Incoming Json) : M St unit :=
  renew now today ;;
  forward resource inc.

(** [router.all] with the pattern of the route: the handler runs on the
    paths the pattern matches, and the router passes the others by. *)
Definition route (now today : Z) (inc : Incoming Json) : M St unit :=
  match captures (path inc) with
  | Some resource => getAjax resource now today inc
  | None => ret tt
  end.

End Relay.

End Ajax.

(** *** A database and a network to run the relay on *)

Module AjaxSample.
Import Ajax.

(** The user table as a map from ids to rows. *)
Definition User_update (st : gmap Z User) (id : Z) (token : string) : gmap Z User :=
  alter (λ u, {| UserId := UserId u; ApiToken := Some token |}) id st.

Definition User_get (st : gmap Z User) (id : Z) : option User := st !! id.

(** Time stamps written as decimal milliseconds stand for ISO dates. *)
Definition toISOString (t : Z) : string := pretty t.

Definition Date_parse (s : string) : option Z :=
  if String.eqb s EmptyString then None else Mail.digits 0 s.

(** A stand-in for the digest. *)
Definition sha1_hex (s : string) : string := "5ha1" +:+ s.

(** The API answers every request with the same JSON document, and is down
    for requests to the host "api.offline". *)
Definition fetch (req : Outgoing) : M (gmap Z User) (Response string) :=
  λ st,
    if JsString.contains "api.offline" (url req)
    then (Throws {| err_status := None;
                    err_message := Some "getaddrinfo ENOTFOUND api.offline";
                    err_stack := None |}, st)
    else (Done {| resp_status := 200;
                  content_type := Some "application/json; charset=utf-8";
                  resp_json := Done "[1,2]";
                  resp_text := Done "[1,2]" |}, st).

Definition users : gmap Z User :=
  <[7%Z := {| UserId := 7; ApiToken := Some "1000" |}]>
    (<[8%Z := {| UserId := 8; ApiToken := None |}]> ∅).

Definition state (id : Z) : State (gmap Z User) string :=
  {| db := users; user := users !! id; status := 404; body := Unset |}.

Definition incoming (host0 : string) : Incoming string :=
  {| protocol := "http"; host := host0; path := "/ajax/members/123456";
     method := "GET"; accept := Some "application/json"; request_body := "{}" |}.

Definition run (id now : Z) (host0 : string) :=
  route User_update User_get Date_parse toISOString sha1_hex (λ j, j) fetch
    now now (incoming host0) (state id).

(** An API whose answer carries no content type. *)
Definition silent (req : Outgoing) : M (gmap Z User) (Response string) :=
  λ st, (Done {| resp_status := 204; content_type := None;
                 resp_json := Done EmptyString;
                 resp_text := Done EmptyString |}, st).

(** A session whose user has no row in the table. *)
Definition stranger : State (gmap Z User) string :=
  {| db := users; user := Some {| UserId := 9; ApiToken := None |};
     status := 404; body := Unset |}.

End AjaxSample.

(* ================================================================== *)
(** ** app-www/app-www.js: the middleware of the www app *)
(* ================================================================== *)

Module Www.

(** [ctx.body] *)
Inductive Page :=
  | Blank
  | File (content : string)
  | Rendered (template : string) (err : Error)
  | Html (content : string).

(** A line of the access log. *)
Record Access := mkAccess {
  acc_method : string;
  acc_host : string;
  acc_path : string;
  acc_status : Z;
  acc_ms : Z;
}.

(** The Koa context of a request, with the clock and the two log
    collections it runs against. *)
Record Ctx := mkCtx {
  method : string;
  host : string;
  path : string;
  request_body : JsVal;
  status : Z;
  body : Page;
  state_domain : string;
  clock : Z;
  log_access : list Access;
  log_error : list Error;
}.

Definition Middleware : Type := M Ctx unit → M Ctx unit.

(** The codes that Koa's setter of [ctx.status] accepts. The setter
    asserts that the code is a status code: one that the statuses package
    knows or, in later versions of Koa, an integer from 100 to 999. Every
    version accepts 404 and 500. *)
Record StatusCodes := mkStatusCodes {
  valid_status : Z → bool;
  valid_404 : valid_status 404 = true;
  valid_500 : valid_status 500 = true;
}.

(** Koa's composition: each middleware receives the rest of the stack as
    [next]; after the last one [next] does nothing. *)
Definition compose (stack : list Middleware) : M Ctx unit :=
  foldr (λ middleware next, middleware next) (ret tt) stack.

Definition set_status (n : Z) (c : Ctx) : Ctx :=
  {| method := method c; host := host c; path := path c;
     request_body := request_body c; status := n; body := body c;
     state_domain := state_domain c; clock := clock c;
     log_access := log_access c; log_error := log_error c |}.

Definition set_body (b : Page) (c : Ctx) : Ctx :=
  {| method := method c; host := host c; path := path c;
     request_body := request_body c; status := status c; body := b;
     state_domain := state_domain c; clock := clock c;
     log_access := log_access c; log_error := log_error c |}.

Definition set_request_body (v : JsVal) (c : Ctx) : Ctx :=
  {| method := method c; host := host c; path := path c;
     request_body := v; status := status c; body := body c;
     state_domain := state_domain c; clock := clock c;
     log_access := log_access c; log_error := log_error c |}.

Definition set_domain (d : string) (c : Ctx) : Ctx :=
  {| method := method c; host := host c; path := path c;
     request_body := request_body c; status := status c; body := body c;
     state_domain := d; clock := clock c;
     log_access := log_access c; log_error := log_error c |}.

(** A capped collection keeps its newest [max] documents. *)
Definition capped {A} (max : nat) (l : list A) (x : A) : list A :=
  drop (length (l ++ [x]) - max) (l ++ [x]).

(** Modelled from the spec: lib/log.js is not among the sources. "Requests
    are timed, logged into a capped store"; the store is "a fixed-size,
    insertion-ordered log store", of at most 1000 documents according to
    the log viewer. [Log.access(ctx, ms)] *)
Definition Log_access (ms : Z) : M Ctx unit :=
  modify (λ c,
    {| method := method c; host := host c; path := path c;
       request_body := request_body c; status := status c; body := body c;
       state_domain := state_domain c; clock := clock c;
       log_access := capped 1000 (log_access c)
                       {| acc_method := method c; acc_host := host c;
                          acc_path := path c; acc_status := status c;
                          acc_ms := ms |};
       log_error := log_error c |}).

(** Modelled from the spec: lib/log.js is not among the sources; the error
    log is a capped store like the access log. [Log.error(ctx, err)] *)
Definition Log_error (err : Error) : M Ctx unit :=
  modify (λ c,
    {| method := method c; host := host c; path := path c;
       request_body := request_body c; status := status c; body := body c;
       state_domain := state_domain c; clock := clock c;
       log_access := log_access c;
       log_error := capped 1000 (log_error c) err |}).

(** [ctx.render(template, { err })] *)
Definition render (template : string) (err : Error) : M Ctx unit :=
  modify (set_body (Rendered template err)).

(** [err.status || 500] *)
Definition status_or_500 (err : Error) : Z :=
  match err_status err with
  | Some n => if (n =? 0)%Z then 500%Z else n
  | None => 500%Z
  end.

(** [delete err.stack] *)
Definition delete_stack (err : Error) : Error :=
  {| err_status := err_status err; err_message := err_message err;
     err_stack := None |}.

(** [if (err.message == 'Not Found') err.message = null] *)
Definition personalise (err : Error) : Error :=
  match err_message err with
  | Some m =>
      if String.eqb m "Not Found"
      then {| err_status := err_status err; err_message := None;
              err_stack := err_stack err |}
      else err
  | None => err
  end.

(** [ctx.throw(404)]: an error with the status and its standard message. *)
Definition http_404 : Error :=
  {| err_status := Some 404%Z; err_message := Some "Not Found";
     err_stack := Some "NotFoundError: Not Found" |}.

(** The trim and blank-to-null of one field of the posted data. *)
Definition clean (v : JsVal) : JsVal :=
  match v with
  | VStr s =>
      if String.eqb (JsString.trim s) EmptyString then VNull
      else VStr (JsString.trim s)
  | _ => v
  end.

(** The posted data after the loop of [cleanPost]; [ctx.request.body] is an
    object. With ['fields'] and ['files'] in it, the loop runs over
    [body.fields]: over all its properties when that is an object, over
    nothing when it is null, undefined, a number or a boolean, and over the
    code units of a string, which cannot be assigned. *)
Definition cleaned (o : gmap string JsVal) : outcome (gmap string JsVal) :=
  if bool_decide (is_Some (o !! "fields")) && bool_decide (is_Some (o !! "files"))
  then match get o "fields" with
       | VObj fields => Done (<["fields" := VObj (clean <$> fields)]> o)
       | VStr s =>
           if String.eqb s EmptyString then Done o
           else Throws (TypeError "Cannot assign to read only property '0' of string")
       | _ => Done o
       end
  else Done (clean <$> o).

(** The object whose properties the loop of [cleanPost] runs over. *)
Definition loop_object (o : gmap string JsVal) : option (gmap string JsVal) :=
  if bool_decide (is_Some (o !! "fields")) && bool_decide (is_Some (o !! "files"))
  then match get o "fields" with
       | VObj fields => Some fields
       | _ => None
       end
  else Some o.

Section App.

(** The status codes of the version of Koa that runs the app. *)
Variable codes : StatusCodes.
(** [app.env] *)
Variable env : string.
(** The files under public/, by request path: koa-static answers a GET or
    HEAD request for one of them, and passes every other request on. *)
Variable public : string → option string.
(** koa-handlebars, koa-flash, koa-lusca and the router of routes-www.js *)
Variable handlebars flash lusca routes : Middleware.

Definition serve : Middleware := λ next c,
  if String.eqb (method c) "GET" || String.eqb (method c) "HEAD" then
    match public (path c) with
    | Some content => (Done tt, set_body (File content) (set_status 200 c))
    | None => next c
    end
  else next c.

(** Whether koa-static answers the request. *)
Definition served (c : Ctx) : bool :=
  (String.eqb (method c) "GET" || String.eqb (method c) "HEAD")
  && bool_decide (is_Some (public (path c))).

Definition logAccess : Middleware := λ next,
  t1 ← read clock ;
  next ;;
  t2 ← read clock ;
  Log_access (t2 - t1).

(** [ctx.status = code], before the headers are sent (Koa sends them when
    the stack has returned). *)
Definition assign_status (code : Z) : M Ctx unit :=
  if valid_status codes code then modify (set_status code)
  else throw (AssertionError ("invalid status code: " +:+ pretty code)).

Definition handleErrors : Middleware := λ next,
  try_catch next (λ err,
    assign_status (status_or_500 err) ;;
    let err := if String.eqb env "production" then delete_stack err else err in
    code ← read status ;
    let err := if (code =? 404)%Z then personalise err else err in
    render (if (code =? 404)%Z then "404-not-found"
            else "500-internal-server-error") err ;;
    Log_error err).

Definition cleanPost : Middleware := λ next,
  request_body0 ← read request_body ;
  match request_body0 with
  | VUndef => next
  | VObj o =>
      o' ← lift (cleaned o) ;
      modify (set_request_body (VObj o')) ;;
      next
  | _ => throw (TypeError "Cannot use 'in' operator to search for 'fields'")
  end.

Definition ctxAddDomain : Middleware := λ next,
  modify (λ c, set_domain (JsString.replace "www." EmptyString (host c)) c) ;;
  next.

Definition notFound : Middleware := λ _, throw http_404.

(** The calls of [app.use], in the order of the file. *)
Definition stack : list Middleware :=
  [ serve; logAccess; handlebars; handleErrors; cleanPost; flash; lusca;
    ctxAddDomain; routes; notFound ].

Definition app : M Ctx unit := compose stack.

End App.

End Www.

(** *** A site to run the www app on *)

Module WwwSample.
Import Www.

Definition public (file : string) : option string :=
  if String.eqb file "/css/base.css" then Some "body { margin: 0 }" else None.

(** The status codes of a recent Koa. *)
Definition codes : StatusCodes :=
  {| valid_status := λ code, (100 <=? code)%Z && (code <=? 999)%Z;
     valid_404 := eq_refl; valid_500 := eq_refl |}.

(** Third-party middleware that only passes the request on. *)
Definition pass : Middleware := λ next, next.

(** A router with one page, and two handlers that fail: one with an
    error whose status is 0, one with an error whose status is no status
    code. *)
Definition routes : Middleware := λ next c,
  if String.eqb (path c) "/" then (Done tt, set_body (Html "<h1>Home</h1>") (set_status 200 c))
  else if String.eqb (path c) "/broken"
  then (Throws {| err_status := Some 0%Z; err_message := Some "broken";
                  err_stack := Some "Error: broken" |}, c)
  else if String.eqb (path c) "/answer"
  then (Throws {| err_status := Some 42%Z; err_message := Some "answer";
                  err_stack := Some "Error: answer" |}, c)
  else next c.

Definition request (method0 path0 : string) (request_body0 : JsVal) : Ctx :=
  {| method := method0; host := "www.example.com"; path := path0;
     request_body := request_body0; status := 404; body := Blank;
     state_domain := EmptyString; clock := 0;
     log_access := []; log_error := [] |}.

Definition app (env : string) : M Ctx unit :=
  Www.app codes env public pass pass pass routes.

End WwwSample.

(* ================================================================== *)
(** ** app-admin/handlers/dev.js: the log viewers *)
(* ================================================================== *)

Module Dev.

(** A document of the log collections. [timestamp] is
    [e._id.getTimestamp()] in milliseconds. *)
Record Entry := mkEntry {
  timestamp : Z;
  host : string;
  url : string;
  ms : Z;
  ip : string;
  ua_family : string;
  ua_major : string;
  os_family : string;
  os_major : string;
}.

(** [ctx.query]; a parameter is [None] when the query string lacks it. *)
Record Query := mkQuery {
  from : option string;
  to : option string;
  app : option string;
  time : option string;
}.

(** An entry with the fields added for display. *)
Record Display := mkDisplay {
  entry : Entry;
  d_time : string;
  d_path : string;
  d_qs : option string;
  d_os : string;
  d_ua : string;
  d_speed : option string;
}.

(** The context handed to the template. *)
Record Context := mkContext {
  entries : list Display;
  filter : Query;
  filterMin : string;
  filterMax : string;
}.

Definition given (o : option string) : bool :=
  match o with
  | Some s => JsString.truthy s
  | None => false
  end.

(** [o || d] *)
Definition or_default (o : option string) (d : string) : string :=
  match o with
  | Some s => if JsString.truthy s then s else d
  | None => d
  end.

(** *** The regular expressions of the host filter

    A pattern made of ordinary characters and dots is matched here; every
    other pattern is left to the engine. *)
Inductive Atom :=
  | Lit (c : ascii)
  | AnyChar.

(** The syntax characters of a pattern. *)
Definition syntax_char (c : ascii) : bool :=
  bool_decide (c ∈ String.list_ascii_of_string "\^$.*+?()[]{}|").

Fixpoint atoms (pattern : string) : option (list Atom) :=
  match pattern with
  | EmptyString => Some []
  | String c pattern' =>
      if Ascii.eqb c "."
      then cons AnyChar <$> atoms pattern'
      else if syntax_char c then None
      else cons (Lit c) <$> atoms pattern'
  end.

(** A dot matches every character but a line terminator. *)
Definition matches_atom (a : Atom) (c : ascii) : bool :=
  match a with
  | Lit c' => Ascii.eqb c' c
  | AnyChar => negb (Nat.eqb (nat_of_ascii c) 10 || Nat.eqb (nat_of_ascii c) 13)
  end.

Fixpoint matches_prefix (l : list Atom) (s : string) : bool :=
  match l, s with
  | [], _ => true
  | a :: l', String c s' => matches_atom a c && matches_prefix l' s'
  | _ :: _, EmptyString => false
  end.

(** A parameter without syntax characters. *)
Definition plain (app0 : string) : bool :=
  forallb (λ c, negb (syntax_char c)) (String.list_ascii_of_string app0).

Section Viewers.

(** [RegExp(pattern).test(s)] for the patterns not matched here; a pattern
    that is not a regular expression throws. *)
Variable engine : string → string → outcome bool.
(** ToNumber on a string, as a rational: [None] for NaN *)
Variable ToNumber : string → option Qc.
(** [dateFormat(date, mask)], [new Date(string)] ([None] for an invalid
    date), [setDate(getDate() + 1)] and [setMonth(getMonth() - 1)] *)
Variable dateFormat : Z → string → string.
Variable Date_parse : string → option Z.
Variable addDay : Z → Z.
Variable monthBefore : Z → Z.

(** [RegExp('^' + app).test(s)] *)
Definition RegExp_test (app0 s : string) : outcome bool :=
  match atoms app0 with
  | Some l => Done (matches_prefix l s)
  | None => engine ("^" +:+ app0) s
  end.

(** [Number(s) ? a : b] *)
Definition Number_truthy (s : string) : bool :=
  match ToNumber s with
  | Some q => negb (bool_decide (q = 0%Qc))
  | None => false
  end.

(** The oldest time stamp of the collection, and the current time for an
    empty one. *)
Definition oldest (now : Z) (entriesAll : list Entry) : Z :=
  foldl (λ old e, if (timestamp e <? old)%Z then timestamp e else old) now entriesAll.

(** [a >= b] and [a <= b] of a date and a possibly invalid date. *)
Definition on_or_after (t : Z) (d : option Z) : bool :=
  match d with
  | Some t0 => (t0 <=? t)%Z
  | None => false
  end.

Definition on_or_before (t : Z) (d : option Z) : bool :=
  match d with
  | Some t0 => (t <=? t0)%Z
  | None => false
  end.

(** [e.ms > ctx.query.time] *)
Definition slower (n : Z) (time0 : string) : bool :=
  match ToNumber time0 with
  | Some q => bool_decide (q < Q2Qc (inject_Z n))%Qc
  | None => false
  end.

(** [ctx.query] after the defaults of 'from' and 'to'. *)
Definition defaults (now : Z) (entriesAll : list Entry) (query : Query) : Query :=
  let monthAgo := monthBefore now in
  let old := oldest now entriesAll in
  {| from := Some (or_default (from query)
                     (dateFormat (if (old <? monthAgo)%Z then monthAgo else old)
                        "yyyy-mm-dd"));
     to := Some (or_default (to query) (dateFormat now "yyyy-mm-dd"));
     app := app query;
     time := time query |}.

Definition toFilter (query : Query) : option Z :=
  addDay <$> Date_parse (default EmptyString (to query)).

(** The tests of the two date filters. *)
Definition from_test (query : Query) (e : Entry) : bool :=
  if given (from query)
  then on_or_after (timestamp e) (Date_parse (default EmptyString (from query)))
  else true.

Definition to_test (query : Query) (e : Entry) : bool :=
  if given (to query) then on_or_before (timestamp e) (toFilter query) else true.

(** The tests of the host filter and of the response-time filter. *)
Definition app_test (query : Query) (e : Entry) : outcome bool :=
  if given (app query)
  then RegExp_test (default EmptyString (app query)) (host e)
  else Done true.

Definition time_test (query : Query) (e : Entry) : bool :=
  if given (time query)
  then slower (ms e) (default EmptyString (time query))
  else true.

(** [l.filter(p)] for a test that can throw. *)
Fixpoint filterM (p : Entry → outcome bool) (l : list Entry) : outcome (list Entry) :=
  match l with
  | [] => Done []
  | e :: l' =>
      b ← p e ;;;
      r ← filterM p l' ;;;
      Done (if b : bool then e :: r else r)
  end.

Definition path_of (url0 : string) : string :=
  hd EmptyString (JsString.split "?" url0)
  +:+ (if bool_decide (1 < length (JsString.split "?" url0)) then "?…" else EmptyString).

Definition annotate (speed : bool) (e : Entry) : Display :=
  {| entry := e;
     d_time := dateFormat (timestamp e) "yyyy-mm-dd HH:MM:ss";
     d_path := path_of (url e);
     d_qs := JsString.split "?" (url e) !! 1%nat;
     d_os := if Number_truthy (os_major e)
             then os_family e +:+ " " +:+ os_major e else os_family e;
     d_ua := if Number_truthy (ua_major e)
             then ua_family e +:+ "-" +:+ ua_major e else ua_family e;
     d_speed := if speed
                then Some (if (500 <? ms e)%Z then "slow"
                           else if (100 <? ms e)%Z then "medium" else EmptyString)
                else None |}.

(** [ctx.query.time = ctx.query.time || '0'] *)
Definition display_filter (query : Query) : Query :=
  {| from := from query; to := to query; app := app query;
     time := Some (or_default (time query) "0") |}.

(** [Dev.logAccess]: [entriesAll] is the collection, newest first, and
    [now] the current time. *)
Definition logAccess (now : Z) (entriesAll : list Entry) (query0 : Query)
  : outcome Context :=
  let query := defaults now entriesAll query0 in
  let dated :=
    List.filter (to_test query) (List.filter (from_test query) entriesAll) in
  hosted ← filterM (app_test query) dated ;;;
  let entriesFiltered := List.filter (time_test query) hosted in
  Done {| entries := annotate true <$> entriesFiltered;
          filter := display_filter query;
          filterMin := dateFormat (oldest now entriesAll) "yyyy-mm-dd";
          filterMax := dateFormat now "yyyy-mm-dd" |}.

(** [Dev.logError] *)
Definition logError (now : Z) (entriesAll : list Entry) (query0 : Query) : Context :=
  let query := defaults now entriesAll query0 in
  let entriesFiltered :=
    List.filter (to_test query) (List.filter (from_test query) entriesAll) in
  {| entries := annotate false <$> entriesFiltered;
     filter := display_filter query;
     filterMin := dateFormat (oldest now entriesAll) "yyyy-mm-dd";
     filterMax := dateFormat now "yyyy-mm-dd" |}.

(** The entries a context shows. *)
Definition shown (context : Context) : list Entry := entry <$> entries context.

(** On or after the 'from' date, and on or before the 'to' date plus one
    day. *)
Definition within_dates (query : Query) (e : Entry) : Prop :=
  (∃ t, Date_parse (default EmptyString (from query)) = Some t
        ∧ (t ≤ timestamp e)%Z)
  ∧ (∃ t, Date_parse (default EmptyString (to query)) = Some t
          ∧ (timestamp e ≤ addDay t)%Z).

End Viewers.

End Dev.

(** *** A collection to run the viewers on *)

Module DevSample.
Import Dev.

Definition day : Z := 86400000.

Definition engine (pattern s : string) : outcome bool :=
  Throws {| err_status := None;
            err_message := Some "Invalid regular expression";
            err_stack := None |}.

Definition ToNumber (s : string) : option Qc :=
  (λ n, Q2Qc (inject_Z n)) <$> Mail.decimal s.

(** Dates written as d and the number of the day stand for yyyy-mm-dd, in
    a time zone without daylight saving. *)
Definition dateFormat (t : Z) (mask : string) : string :=
  String "d" (pretty (t `div` day)%Z).

Definition Date_parse (s : string) : option Z :=
  match s with
  | String c (String a rest) =>
      if Ascii.eqb c "d" then (λ d, d * day)%Z <$> Mail.digits 0 (String a rest)
      else None
  | _ => None
  end.

Definition addDay (t : Z) : Z := t + day.

Definition monthBefore (t : Z) : Z := t - 30 * day.

Definition visit (t : Z) (host0 url0 : string) (ms0 : Z) : Entry :=
  {| timestamp := t; host := host0; url := url0; ms := ms0; ip := "127.0.0.1";
     ua_family := "Firefox"; ua_major := "52"; os_family := "Linux"; os_major := EmptyString |}.

Definition www_visit : Entry := visit (101 * day + 1000) "www.example.com" "/about?x=1" 120.
Definition admin_visit : Entry := visit (100 * day + 5000) "admin.example.com" "/members" 20.
Definition api_visit : Entry := visit (99 * day) "api.example.com" "/members/7" 700.

Definition log : list Entry := [www_visit; admin_visit; api_visit].

Definition now : Z := 102 * day + 3600000.

Definition logAccess (query : Query) : outcome Context :=
  Dev.logAccess engine ToNumber dateFormat Date_parse addDay monthBefore now log query.

Definition logError (query : Query) : Context :=
  Dev.logError ToNumber dateFormat Date_parse addDay monthBefore now log query.

End DevSample.

(* ================================================================== *)
(** ** app-api: the member endpoints *)
(* ================================================================== *)

Module Api.

Record Member := mkMember {
  MemberId : Z;
  Firstname : string;
  Lastname : string;
  Email : string;
  Active : bool;
}.

(** The values sent with POST and PATCH. *)
Record Values := mkValues {
  v_Firstname : string;
  v_Lastname : string;
  v_Email : string;
  v_Active : bool;
}.

(** The tables: the token of each user that may call the API, the members
    by id, and the id the next member gets. *)
Record Db := mkDb {
  tokens : gmap Z string;
  members : gmap Z Member;
  next_id : Z;
}.

Inductive Method := GET | POST | PATCH | DELETE.

(** /members, /members/:id, and every path that is no resource. *)
Inductive Resource :=
  | Members
  | MemberAt (id : Z)
  | NoResource (path : string).

Record Request := mkRequest {
  method : Method;
  resource : Resource;
  (** the id and password of the Basic-auth header *)
  credentials : option (Z * string);
  (** the query string of a list request, as a test on members *)
  filter : option (Member → bool);
  values : Values;
}.

Inductive Body :=
  | Empty
  | One (m : Member)
  | Many (l : list Member)
  | Message (s : string).

Record Response := mkResponse {
  status : Z;
  Location : option string;
  body : Body;
}.

Definition answer (code : Z) (b : Body) : Response :=
  {| status := code; Location := None; body := b |}.

(** Modelled from the spec: the authentication middleware of app-api is
    not among the sources. "Basic-auth credentials are missing or invalid":
    the root resource announces basic auth 'id:token', and the tests are
    refused with an unrecognised id and with a bad password. *)
Definition authenticated (db : Db) (req : Request) : bool :=
  match credentials req with
  | Some (id, password) => bool_decide (tokens db !! id = Some password)
  | None => false
  end.

Definition member_of (id : Z) (v : Values) : Member :=
  {| MemberId := id; Firstname := v_Firstname v; Lastname := v_Lastname v;
     Email := v_Email v; Active := v_Active v |}.

(** The members in the order of their ids. *)
Definition all_members (db : Db) : list Member := (map_to_list (members db)).*2.

(** A member, other than the one being updated, has the e-mail address. *)
Definition email_taken (db : Db) (updated : option Z) (email : string) : bool :=
  bool_decide (Exists (λ m, Email m = email ∧ Some (MemberId m) ≠ updated)
                 (all_members db)).

Definition duplicate (email : string) : Response :=
  answer 409 (Message ("Duplicate entry '" +:+ email +:+ "' for key 'Email'")).

(** Modelled from the spec: the handlers of the member routes are not among
    the sources. "200 on a successful read/update/delete, 201 on create
    (with a Location header of '/members/' + new id), 204 when a filtered
    list matches no members, 404 for a member or resource that does not
    exist when authenticated, and 409 when creating a member whose Email
    duplicates an existing one"; an update to a taken address meets the
    same uniqueness constraint of the table. *)
Definition route (db : Db) (req : Request) : Db * Response :=
  match method req, resource req with
  | GET, Members =>
      let found := match filter req with
                   | Some p => List.filter p (all_members db)
                   | None => all_members db
                   end in
      match filter req, found with
      | Some _, [] => (db, answer 204 Empty)
      | _, _ => (db, answer 200 (Many found))
      end
  | POST, Members =>
      if email_taken db None (v_Email (values req))
      then (db, duplicate (v_Email (values req)))
      else
        let m := member_of (next_id db) (values req) in
        ({| tokens := tokens db; members := <[next_id db := m]> (members db);
            next_id := next_id db + 1 |},
         {| status := 201; Location := Some ("/members/" +:+ pretty (next_id db));
            body := One m |})
  | GET, MemberAt id =>
      match members db !! id with
      | Some m => (db, answer 200 (One m))
      | None => (db, answer 404 Empty)
      end
  | PATCH, MemberAt id =>
      match members db !! id with
      | Some _ =>
          if email_taken db (Some id) (v_Email (values req))
          then (db, duplicate (v_Email (values req)))
          else
            let m := member_of id (values req) in
            ({| tokens := tokens db; members := <[id := m]> (members db);
                next_id := next_id db |},
             answer 200 (One m))
      | None => (db, answer 404 Empty)
      end
  | DELETE, MemberAt id =>
      match members db !! id with
      | Some m =>
          ({| tokens := tokens db; members := delete id (members db);
              next_id := next_id db |},
           answer 200 (One m))
      | None => (db, answer 404 Empty)
      end
  | _, _ => (db, answer 404 Empty)
  end.

(** Modelled from the spec: app-api's composition of authentication and
    routes is not among the sources. "401 whenever Basic-auth credentials
    are missing or invalid (for any resource, existing or not)". *)
Definition api (db : Db) (req : Request) : Db * Response :=
  if authenticated db req then route db req else (db, answer 401 Empty).

End Api.

(** *** Tables to run the API on *)

Module ApiSample.
Import Api.

Definition lewis : Member :=
  {| MemberId := 1; Firstname := "lewis"; Lastname := "carroll";
     Email := "lewis@user.com"; Active := true |}.

Definition db : Db :=
  {| tokens := {[ 7%Z := "secret" ]}; members := {[ 1%Z := lewis ]}; next_id := 2 |}.

Definition test_user : Values :=
  {| v_Firstname := "Test"; v_Lastname := "User"; v_Email := "test@user.com";
     v_Active := true |}.

Definition request (m : Method) (r : Resource) : Request :=
  {| method := m; resource := r; credentials := Some (7%Z, "secret");
     filter := None; values := test_user |}.

End ApiSample.

(* ================================================================== *)
(** * Properties *)
(* ================================================================== *)

(** ** JavaScript strings *)

Module JsStringFacts.
Import JsString.

Lemma app_String a p s : String a p +:+ s = String a (p +:+ s).
Proof. reflexivity. Qed.

Lemma starts_with_app p s : starts_with p (p +:+ s) = true.
Proof.
  induction p as [|a p IH]; simpl; [done|].
  by rewrite Ascii.eqb_refl, IH.
Qed.

Lemma drop_app p s : drop (String.length p) (p +:+ s) = s.
Proof. induction p as [|a p IH]; [done|]. by rewrite app_String. Qed.

Lemma truthy_true s : truthy s = true ↔ s ≠ EmptyString.
Proof.
  unfold truthy. rewrite negb_true_iff.
  split.
  - intros H ->. by rewrite String.eqb_refl in H.
  - intros H. by apply String.eqb_neq.
Qed.

Lemma split_nonempty c s : split c s ≠ [].
Proof.
  destruct s as [|a s]; simpl; [done|].
  destruct (Ascii.eqb a c); [done|]. by destruct (split c s).
Qed.

Lemma split_absent c s : has c s = false → split c s = [s].
Proof.
  induction s as [|a s IH]; simpl; [done|].
  intros [Ha Hs]%orb_false_elim. by rewrite Ha, (IH Hs).
Qed.

Lemma split_app c s t :
  has c s = false → split c (s +:+ String c t) = s :: split c t.
Proof.
  induction s as [|a s IH].
  - intros _. change (EmptyString +:+ String c t) with (String c t). simpl.
    by rewrite Ascii.eqb_refl.
  - simpl. intros [Ha Hs]%orb_false_elim. by rewrite Ha, (IH Hs).
Qed.

Lemma split_snoc c s :
  split c (s +:+ String c EmptyString) = split c s ++ [EmptyString].
Proof.
  induction s as [|a s IH].
  - simpl. by rewrite Ascii.eqb_refl.
  - rewrite app_String. simpl. rewrite IH.
    destruct (Ascii.eqb a c); [done|].
    pose proof (split_nonempty c s).
    by destruct (split c s).
Qed.

Lemma has_app c s t : has c (s +:+ t) = has c s || has c t.
Proof.
  induction s as [|a s IH]; [done|].
  rewrite app_String. simpl. by rewrite IH, orb_assoc.
Qed.

(** White space is no separator. *)
Lemma blank_has c s : is_white c = false → blank s = true → has c s = false.
Proof.
  intros Hc. induction s as [|a s IH]; simpl; [done|].
  intros [Ha Hs]%andb_prop. rewrite (IH Hs), orb_false_r.
  apply Ascii.eqb_neq. intros ->. congruence.
Qed.

Lemma trim_start_blank p s : blank p = true → trim_start (p +:+ s) = trim_start s.
Proof.
  induction p as [|a p IH]; [done|]. rewrite app_String. simpl.
  intros [Ha Hp]%andb_prop. rewrite Ha. by apply IH.
Qed.

Lemma trim_end_blank p : blank p = true → trim_end p = EmptyString.
Proof.
  induction p as [|a p IH]; [done|]. simpl.
  intros [Ha Hp]%andb_prop. by rewrite (IH Hp), Ha.
Qed.

Lemma trim_end_app_blank s p : blank p = true → trim_end (s +:+ p) = trim_end s.
Proof.
  intros Hp. induction s as [|a s IH].
  - by apply trim_end_blank.
  - rewrite app_String. simpl. by rewrite IH.
Qed.

(** Where the trim at the start stops, what follows is left alone. *)
Lemma trim_start_app s t :
  trim_start s ≠ EmptyString → trim_start (s +:+ t) = trim_start s +:+ t.
Proof.
  induction s as [|a s IH]; [done|]. rewrite app_String. simpl.
  destruct (is_white a); [apply IH | by rewrite app_String].
Qed.

(** The white space around a trimmed text is what [trim] removes. *)
Lemma trim_padded p s q :
  blank p = true → blank q = true → trim s = s → trim (p +:+ s +:+ q) = s.
Proof.
  intros Hp Hq Hs. unfold trim in *. rewrite (trim_start_blank _ _ Hp).
  destruct (trim_start s) as [|a r] eqn:Hr.
  - simpl in Hs. subst s. change (EmptyString +:+ q) with q.
    assert (trim_start q = EmptyString) as ->; [|done].
    clear -Hq. induction q as [|a q IH]; [done|]. simpl in *.
    apply andb_prop in Hq as [-> Hq]. by apply IH.
  - rewrite trim_start_app by (rewrite Hr; done).
    by rewrite Hr, (trim_end_app_blank _ _ Hq).
Qed.

Example trim_ex : trim "  port=465 " = "port=465".
Proof. reflexivity. Qed.

Example split_ex : split ";" "a=b; c.d=e;" = ["a=b"; " c.d=e"; EmptyString].
Proof. reflexivity. Qed.

Example replace_ex : replace "admin" "api" "admin.app.com" = "api.app.com".
Proof. reflexivity. Qed.

End JsStringFacts.

Lemma bind_done {A B} (x : outcome A) (f : A → outcome B) b :
  bind x f = Done b ↔ ∃ a, x = Done a ∧ f a = Done b.
Proof.
  destruct x as [a|e]; simpl; split.
  - eauto.
  - by intros (? & [= <-] & ?).
  - done.
  - by intros (? & ? & ?).
Qed.

(* ================================================================== *)
(** ** lib/mail.js: the configuration read from SMTP_CONNECTION *)
(* ================================================================== *)

Module MailConfig.
Import Mail.

Example smtp_gmail :
  smtpConfig decimal "service=gmail; auth.user=me@gmail.com; auth.pass=mypw"
  = Done (plain (<["service" := VStr "gmail"]>
                 (<["auth" := VObj (<["user" := VStr "me@gmail.com"]>
                                    (<["pass" := VStr "mypw"]> ∅))]> ∅))).
Proof. vm_compute. reflexivity. Qed.

Example smtp_host_port :
  smtpConfig decimal "host=smtp.mailhost.com; port=465; auth.user=u; auth.pass=p"
  = Done (plain (<["host" := VStr "smtp.mailhost.com"]>
                 (<["port" := VStr "465"]>
                  (<["secure" := VBool true]>
                   (<["auth" := VObj (<["user" := VStr "u"]>
                                      (<["pass" := VStr "p"]> ∅))]> ∅))))).
Proof. vm_compute. reflexivity. Qed.

(** A dotted key after a plain key of the same name cannot be stored. *)
Example smtp_clash :
  ∃ e, smtpConfig decimal "auth=x; auth.user=me" = Throws e.
Proof. eexists. vm_compute. reflexivity. Qed.

(** A key that reaches a function of [Object.prototype]: what is written
    on the function stays, and its name cannot be written. *)
Example smtp_method :
  smtpConfig decimal "toString.x=1"
  = Done {| own := {[ "toString" := VObj {[ "x" := VStr "1" ]} ]};
            functions := {[ "toString" ]}; prototype := ∅ |}
  ∧ ∃ e, smtpConfig decimal "toString.name=x" = Throws e.
Proof. split; [vm_compute; reflexivity|]. eexists. vm_compute. reflexivity. Qed.

(** What is written through [__proto__] is inherited: a [port] there
    decides [secure]. *)
Example smtp_inherited :
  smtpConfig decimal "__proto__.port=465"
  = Done {| own := {[ "secure" := VBool true ]}; functions := ∅;
            prototype := {[ "port" := VStr "465" ]} |}.
Proof. vm_compute. reflexivity. Qed.

(** *** From the characters to the pairs *)

Lemma split_join (l : list string) :
  l ≠ [] → Forall (λ s, JsString.has ";" s = false) l →
  JsString.split ";" (join l) = l.
Proof.
  induction l as [|s l IH]; [done|]. intros _ Hl.
  apply Forall_cons in Hl as [Hs Hl]. simpl.
  destruct l as [|s' l].
  - by apply JsStringFacts.split_absent.
  - rewrite (JsStringFacts.split_app _ _ _ Hs). f_equal. by apply IH.
Qed.

Lemma well_formed_spec seg :
  well_formed seg = true →
  JsString.blank (before seg) = true ∧ JsString.blank (after seg) = true
  ∧ JsString.has ";" (seg_key seg) = false
  ∧ JsString.has "=" (seg_key seg) = false
  ∧ JsString.has ";" (seg_value seg) = false
  ∧ JsString.trim (pair_text seg) = pair_text seg.
Proof.
  unfold well_formed. rewrite !andb_true_iff, !negb_true_iff.
  intros (((((? & ?) & ?) & ?) & ?) & ?%String.eqb_eq). done.
Qed.

Lemma segment_no_semicolon seg :
  well_formed seg = true → JsString.has ";" (segment_text seg) = false.
Proof.
  intros (Hb & Ha & Hk & _ & Hv & _)%well_formed_spec.
  unfold segment_text, pair_text.
  rewrite !JsStringFacts.has_app. simpl.
  rewrite Hk, Hv. simpl.
  by rewrite !JsStringFacts.blank_has.
Qed.

Lemma segment_tokens seg :
  well_formed seg = true →
  JsString.split "=" (JsString.trim (segment_text seg))
  = seg_key seg :: JsString.split "=" (seg_value seg).
Proof.
  intros (Hb & Ha & _ & Hk & _ & Ht)%well_formed_spec.
  unfold segment_text. rewrite JsStringFacts.trim_padded by done.
  unfold pair_text. by apply JsStringFacts.split_app.
Qed.

(** The parser reads a string of well-formed segments as its pairs. *)
Lemma smtpKeyVal_tokens segs :
  segs ≠ [] → forallb well_formed segs = true →
  smtpKeyVal (connection_string segs) = tokens segs.
Proof.
  intros Hne Hwf. rewrite forallb_forall in Hwf.
  unfold smtpKeyVal, connection_string, tokens.
  rewrite split_join.
  - rewrite <- list_fmap_compose. apply Forall_fmap_ext_1, Forall_forall.
    intros seg Hseg. simpl. apply segment_tokens, Hwf.
    by apply list_elem_of_In.
  - by destruct segs.
  - apply Forall_fmap, Forall_forall. intros seg Hseg. simpl.
    apply segment_no_semicolon, Hwf. by apply list_elem_of_In.
Qed.

(** *** What one segment changes *)

Lemma reduce_app config l1 l2 :
  reduce config (l1 ++ l2) = (c ← reduce config l1 ;;; reduce c l2).
Proof.
  revert config. induction l1 as [|kv l1 IH]; intros config; simpl; [done|].
  destruct (reduce_step config kv); simpl; [apply IH | done].
Qed.

Lemma lookup_set_own k v config :
  k ≠ "__proto__" → set_own k v config !! k = Some v.
Proof.
  intros Hk. unfold set_own. apply String.eqb_neq in Hk as ->.
  apply (lookup_insert_eq (own config)).
Qed.

Lemma lookup_set_own_ne k k' v config :
  k ≠ k' → set_own k v config !! k' = config !! k'.
Proof.
  intros Hk. unfold set_own. destruct (String.eqb k "__proto__"); [done|].
  by apply (lookup_insert_ne (own config)).
Qed.

(** A step writes one top-level property only. *)
Lemma reduce_step_other config kv config' k :
  reduce_step config kv = Done config' → k ≠ head_key kv →
  config' !! k = config !! k.
Proof.
  unfold reduce_step, head_key. destruct kv as [|key rest]; [done|].
  destruct (JsString.split "." key) as [|k0 [|k1 more]]; simpl.
  - by intros [= <-].
  - intros [= <-] Hne. by apply lookup_set_own_ne.
  - intros Hstep Hne. destruct (String.eqb k0 "__proto__").
    { by injection Hstep as <-. }
    destruct (resolve config k0) as [o|o|v].
    + injection Hstep as <-. by apply (lookup_insert_ne (own config)).
    + destruct (read_only k0 k1); [done|].
      injection Hstep as <-. by apply (lookup_insert_ne (own config)).
    + destruct (String.eqb k1 "__proto__"); [|done].
      injection Hstep as <-. by apply lookup_set_own_ne.
Qed.

(** A plain key keeps its value until a later segment writes the same
    top-level property. *)
Lemma reduce_keeps_plain config post config' k v :
  config !! k = Some v →
  Forall (λ kv, head_key kv ≠ k) post →
  reduce config post = Done config' →
  config' !! k = Some v.
Proof.
  revert config. induction post as [|kv post IH]; intros config Hk Hpost; simpl.
  - by intros [= <-].
  - apply Forall_cons in Hpost as [Hkv Hpost].
    intros (c & Hstep & Hred)%bind_done.
    apply (IH c); [|done..].
    rewrite (reduce_step_other _ _ _ _ Hstep); [done|congruence].
Qed.

Lemma lookup_assign_ne k1 val o b : k1 ≠ b → assign k1 val o !! b = o !! b.
Proof.
  intros Hne. unfold assign. destruct (String.eqb k1 "__proto__"); [done|].
  by apply lookup_insert_ne.
Qed.

Lemma lookup_assign k1 val o : k1 ≠ "__proto__" → assign k1 val o !! k1 = Some val.
Proof.
  intros Hne. unfold assign. apply String.eqb_neq in Hne as ->.
  apply lookup_insert_eq.
Qed.

(** What [config[k0] = config[k0] || {}] finds in an object. *)
Lemma resolve_object config k0 o :
  config !! k0 = Some (VObj o) →
  resolve config k0 = Object o ∨ resolve config k0 = Method o.
Proof.
  intros H. change (own config !! k0 = Some (VObj o)) in H.
  unfold resolve. rewrite H. destruct (bool_decide _); auto.
Qed.

Lemma reduce_step_keeps_field config kv config' a b v :
  has_field config a b v → ¬ overwrites a b kv →
  reduce_step config kv = Done config' →
  has_field config' a b v.
Proof.
  intros (o & Ha & Hb) Hno Hstep.
  destruct (decide (head_key kv = a)) as [Hhead|Hhead].
  - unfold reduce_step, overwrites, head_key in *.
    destruct kv as [|key rest]; [done|].
    destruct (JsString.split "." key) as [|k0 [|k1 more]]; simpl in *.
    + injection Hstep as <-. by exists o.
    + done.
    + subst k0. assert (k1 ≠ b) as Hk1 by tauto.
      destruct (String.eqb a "__proto__").
      { injection Hstep as <-. by exists o. }
      destruct (resolve_object _ _ _ Ha) as [Hr | Hr]; rewrite Hr in Hstep.
      * injection Hstep as <-. exists (assign k1 (val_of rest) o).
        split; [apply (lookup_insert_eq (own config))|].
        by rewrite lookup_assign_ne.
      * destruct (read_only a k1); [done|].
        injection Hstep as <-. exists (assign k1 (val_of rest) o).
        split; [apply (lookup_insert_eq (own config))|].
        by rewrite lookup_assign_ne.
  - exists o. split; [|done]. rewrite <- Ha.
    eapply reduce_step_other; [done|congruence].
Qed.

Lemma reduce_keeps_field config post config' a b v :
  has_field config a b v →
  Forall (λ kv, ¬ overwrites a b kv) post →
  reduce config post = Done config' →
  has_field config' a b v.
Proof.
  revert config. induction post as [|kv post IH]; intros config Hf Hpost; simpl.
  - by intros [= <-].
  - apply Forall_cons in Hpost as [Hkv Hpost].
    intros (c & Hstep & Hred)%bind_done.
    apply (IH c); [|done..]. by eapply reduce_step_keeps_field.
Qed.

(** The three stages a segment of the reduction goes through. *)
Lemma reduce_middle pre kv post config :
  reduce ∅ (pre ++ kv :: post) = Done config →
  ∃ c1 c2, reduce ∅ pre = Done c1 ∧ reduce_step c1 kv = Done c2
           ∧ reduce c2 post = Done config.
Proof.
  rewrite reduce_app. intros (c1 & Hpre & Hrest)%bind_done.
  simpl in Hrest. apply bind_done in Hrest as (c2 & Hstep & Hpost).
  by exists c1, c2.
Qed.

Lemma reduce_stores_plain l config :
  reduce ∅ l = Done config →
  ∀ pre key rest post k,
    l = pre ++ (key :: rest) :: post →
    JsString.split "." key = [k] →
    Forall (λ kv, head_key kv ≠ k) post →
    k ≠ "__proto__" →
    config !! k = Some (val_of rest).
Proof.
  intros Hred pre key rest post k -> Hsplit Hpost Hk.
  apply reduce_middle in Hred as (c1 & c2 & _ & Hstep & Hred).
  eapply reduce_keeps_plain; [|done..].
  unfold reduce_step in Hstep. rewrite Hsplit in Hstep.
  injection Hstep as <-. by apply lookup_set_own.
Qed.

(** A dotted key that is stored leaves its value in a field. *)
Lemma reduce_step_dotted config key rest a b more config' :
  JsString.split "." key = a :: b :: more →
  a ≠ "__proto__" → b ≠ "__proto__" →
  reduce_step config (key :: rest) = Done config' →
  has_field config' a b (val_of rest).
Proof.
  intros Hsplit Ha Hb. unfold reduce_step. rewrite Hsplit.
  apply String.eqb_neq in Ha as ->.
  destruct (resolve config a) as [o|o|v].
  - intros [= <-]. exists (assign b (val_of rest) o).
    split; [apply (lookup_insert_eq (own config))|]. by apply lookup_assign.
  - destruct (read_only a b); [done|].
    intros [= <-]. exists (assign b (val_of rest) o).
    split; [apply (lookup_insert_eq (own config))|]. by apply lookup_assign.
  - by apply String.eqb_neq in Hb as ->.
Qed.

Lemma reduce_stores_dotted l config :
  reduce ∅ l = Done config →
  ∀ pre key rest post a b more,
    l = pre ++ (key :: rest) :: post →
    JsString.split "." key = a :: b :: more →
    Forall (λ kv, ¬ overwrites a b kv) post →
    a ≠ "__proto__" → b ≠ "__proto__" →
    has_field config a b (val_of rest).
Proof.
  intros Hred pre key rest post a b more -> Hsplit Hpost Ha Hb.
  apply reduce_middle in Hred as (c1 & c2 & _ & Hstep & Hred).
  eapply reduce_keeps_field; [|done..].
  by eapply reduce_step_dotted.
Qed.

(** *** The [secure] option *)

Section Secure.

Variable StringToNumber : string → option Z.

Local Abbreviation add_secure := (add_secure StringToNumber).

Lemma add_secure_other config config' k :
  add_secure config = Done config' → k ≠ "secure" → config' !! k = config !! k.
Proof.
  unfold Mail.add_secure. destruct (truthy _); [|by intros [= <-]].
  intros (secure & _ & [= <-])%bind_done Hk. by apply lookup_set_own_ne.
Qed.

Lemma property_own config k v : config !! k = Some v → property config k = v.
Proof.
  intros H. change (own config !! k = Some v) in H.
  unfold property. by rewrite H.
Qed.

(** A [port] with a value decides [secure]. *)
Lemma add_secure_port config config' p :
  config !! "port" = Some (VStr p) → p ≠ EmptyString →
  add_secure config = Done config' →
  config' !! "secure" = Some (VBool (bool_decide (StringToNumber p = Some 465%Z))).
Proof.
  intros Hport Hp. unfold Mail.add_secure.
  rewrite (property_own _ _ _ Hport). simpl.
  apply JsStringFacts.truthy_true in Hp as ->. simpl.
  intros [= <-]. by apply lookup_set_own.
Qed.

(** Without a truthy [port] nothing is added. *)
Lemma add_secure_none config config' :
  add_secure config = Done config' →
  truthy (property config' "port") = false → config' = config.
Proof.
  unfold Mail.add_secure. destruct (truthy (property config "port")) eqn:Hport;
    [|by intros [= <-]].
  intros (secure & _ & [= <-])%bind_done.
  assert (property (set_own "secure" (VBool secure) config) "port"
          = property config "port") as ->; [|congruence].
  unfold property, set_own. simpl. by rewrite lookup_insert_ne.
Qed.

End Secure.

(** *** When the parser throws *)

#[local] Arguments reduce_step : simpl never.

Lemma reduce_step_plain config key rest k :
  JsString.split "." key = [k] →
  reduce_step config (key :: rest) = Done (set_own k (val_of rest) config).
Proof. intros H. unfold reduce_step. by rewrite H. Qed.

(** A dotted key that finds a non-empty string cannot be stored. *)
Lemma reduce_step_on_string config key rest a b more v :
  JsString.split "." key = a :: b :: more →
  a ≠ "__proto__" → b ≠ "__proto__" →
  config !! a = Some (VStr v) → v ≠ EmptyString →
  ∃ e, reduce_step config (key :: rest) = Throws e.
Proof.
  intros Hsplit Ha Hb Hv Hne. change (own config !! a = Some (VStr v)) in Hv.
  unfold reduce_step, resolve. rewrite Hsplit, Hv. simpl.
  apply String.eqb_neq in Ha as ->. apply String.eqb_neq in Hb as ->.
  apply JsStringFacts.truthy_true in Hne as ->. by eexists.
Qed.

(** A dotted key [a.b] after a plain key [a] with a value, no segment
    between them writing [a]. *)
Lemma plain_then_dotted pre key v rest mid key' rest' post a b more :
  JsString.split "." key = [a] → v ≠ EmptyString →
  Forall (λ kv, head_key kv ≠ a) mid →
  JsString.split "." key' = a :: b :: more →
  a ≠ "__proto__" → b ≠ "__proto__" →
  ∃ e, reduce ∅ (pre ++ (key :: v :: rest) :: mid ++ (key' :: rest') :: post)
       = Throws e.
Proof.
  intros Hkey Hv Hmid Hkey' Ha Hb. rewrite reduce_app.
  destruct (reduce ∅ pre) as [c1|e1]; [|by eexists]. simpl.
  rewrite (reduce_step_plain _ _ _ _ Hkey). simpl. rewrite reduce_app.
  destruct (reduce (set_own a (VStr v) c1) mid) as [c3|e3] eqn:Hc3; [|by eexists].
  simpl.
  assert (c3 !! a = Some (VStr v)) as Hc3a.
  { eapply reduce_keeps_plain; [|done..]. by apply lookup_set_own. }
  destruct (reduce_step_on_string c3 key' rest' a b more v) as [e ->]; [done..|].
  by eexists.
Qed.

Lemma ordinary_spec l kv :
  ordinary l = true → kv ∈ l →
  head_key kv ≠ "__proto__"
  ∧ (dotted kv = true →
     (head_key kv ∉ Object_prototype)
     ∧ second_key kv ≠ "__proto__"
     ∧ ¬ (head_key kv = "port" ∧ second_key kv = "toString")).
Proof.
  unfold ordinary. rewrite forallb_forall. intros H Hkv.
  apply list_elem_of_In, H in Hkv.
  apply andb_prop in Hkv as [Hhead Hdot].
  apply negb_true_iff, String.eqb_neq in Hhead. split; [done|].
  intros Hd. rewrite Hd in Hdot. simpl in Hdot.
  apply andb_prop in Hdot as [[Hproto Hsecond]%andb_prop Hport].
  apply negb_true_iff, bool_decide_eq_false in Hproto.
  apply negb_true_iff, String.eqb_neq in Hsecond.
  apply negb_true_iff, andb_false_iff in Hport.
  split; [done|]. split; [done|].
  intros [H1 H2]. destruct Hport as [Hp|Hp]; apply String.eqb_neq in Hp; done.
Qed.

Lemma clash_app l1 l2 : clash l1 → clash (l1 ++ l2).
Proof.
  intros (pre & key & v & rest & mid & key' & rest' & post & a & b & more
          & -> & H).
  exists pre, key, v, rest, mid, key', rest', (post ++ l2), a, b, more.
  split; [|done]. rewrite <- app_assoc. simpl. f_equal. f_equal.
  by rewrite <- app_assoc.
Qed.

(** *** When the parser returns *)

Lemma written_by_empty : written_by [] ∅.
Proof. split; [done|]. split; [done|]. split; by intros ???. Qed.

(** One more segment that writes the property [k0]. *)
Lemma written_by_step pre config kv k0 (config' : Config) :
  written_by pre config →
  head_key kv = k0 →
  functions config' = ∅ →
  prototype config' = ∅ →
  (∀ a, a ≠ k0 → config' !! a = config !! a) →
  (∀ v, config' !! k0 = Some v →
     (∃ o, v = VObj o ∧ ∀ b, is_Some (o !! b) →
        ∃ kv', kv' ∈ pre ++ [kv] ∧ dotted kv' = true ∧ head_key kv' = k0
               ∧ second_key kv' = b)
     ∨ ((∀ o, v ≠ VObj o) ∧ ∃ key rest,
          kv = key :: rest ∧ JsString.split "." key = [k0] ∧ v = val_of rest)) →
  written_by (pre ++ [kv]) config'.
Proof.
  intros (_ & _ & Hprim & Hfield) Hhead Hf Hp Hother Hk0.
  split; [done|]. split; [done|]. split.
  - intros a v Hv. destruct (decide (a = k0)) as [->|Ha].
    + destruct (Hk0 v Hv) as [(o & -> & _)|(_ & key & rest & -> & Hsplit & ->)].
      * left. by exists o.
      * right. exists pre, key, rest, []. done.
    + rewrite Hother in Hv by done.
      destruct (Hprim a v Hv) as [?|(p1 & key & rest & p2 & -> & ? & ? & Hp2)];
        [by left|right].
      exists p1, key, rest, (p2 ++ [kv]). split; [by rewrite <- app_assoc|].
      split; [done|]. split; [done|].
      apply Forall_app. split; [done|]. apply Forall_singleton. congruence.
  - intros a o b Ho Hb. destruct (decide (a = k0)) as [->|Ha].
    + destruct (Hk0 _ Ho) as [(o' & [= <-] & Hfields)|(Hno & _)]; [auto|].
      by destruct (Hno o).
    + rewrite Hother in Ho by done.
      destruct (Hfield a o b Ho Hb) as (kv' & Hin & H).
      exists kv'. split; [|done]. apply elem_of_app. by left.
Qed.

(** A segment with an ordinary key that finds no string in its way is
    stored. *)
Lemma reduce_step_written_by pre config kv :
  written_by pre config → kv ≠ [] → ordinary [kv] = true →
  ¬ clash (pre ++ [kv]) →
  ∃ config', reduce_step config kv = Done config'
             ∧ written_by (pre ++ [kv]) config'.
Proof.
  intros Hw Hne Hord Hclash.
  destruct (ordinary_spec [kv] kv Hord) as [Hhead Hdotted]; [by left|].
  clear Hord. destruct Hw as (Hf & Hp & Hprim & Hfield).
  destruct kv as [|key rest]; [done|]. clear Hne.
  unfold head_key, dotted, second_key in Hhead, Hdotted.
  unfold reduce_step.
  destruct (JsString.split "." key) as [|k0 [|k1 more]] eqn:Hsplit; simpl in *.
  - by apply JsStringFacts.split_nonempty in Hsplit.
  - eexists. split; [done|].
    apply (written_by_step pre config (key :: rest) k0); [done|..].
    + unfold head_key. by rewrite Hsplit.
    + unfold set_own. apply String.eqb_neq in Hhead as ->. simpl.
      rewrite Hf. apply empty_difference_L.
    + unfold set_own. by destruct (String.eqb k0 "__proto__").
    + intros a Ha. by apply lookup_set_own_ne.
    + intros v. rewrite lookup_set_own by done. intros [= <-]. right.
      split; [by destruct rest|]. by exists key, rest.
  - destruct Hdotted as (Hproto & Hk1 & Hport); [done|].
    apply String.eqb_neq in Hhead as Hhead'. rewrite Hhead'.
    assert (∃ o, resolve config k0 = Object o
                 ∧ ∀ b, is_Some (o !! b) →
                     ∃ kv', kv' ∈ pre ∧ dotted kv' = true ∧ head_key kv' = k0
                            ∧ second_key kv' = b) as (o & -> & Ho).
    { unfold resolve. rewrite Hf, Hp, lookup_empty.
      change (own config !! k0) with (config !! k0).
      destruct (config !! k0) as [v|] eqn:Hv.
      - destruct (Hprim _ _ Hv) as [[o ->]|(p1 & key0 & rest0 & p2 & -> & Hk & -> & Hp2)].
        + exists o. rewrite bool_decide_eq_false_2 by set_solver.
          split; [done|]. intros b Hb. by apply (Hfield k0 o).
        + destruct rest0 as [|s rest0]; simpl.
          { exists ∅. split; [done|]. intros b [? Hb]. by rewrite lookup_empty in Hb. }
          destruct (JsString.truthy s) eqn:Hs.
          * exfalso. apply Hclash.
            exists p1, key0, s, rest0, p2, key, rest, [], k0, k1, more.
            split; [by rewrite <- app_assoc|]. split; [done|].
            split; [by apply JsStringFacts.truthy_true|]. done.
          * exists ∅. split; [done|]. intros b [? Hb]. by rewrite lookup_empty in Hb.
      - exists ∅. rewrite bool_decide_eq_false_2 by done.
        split; [done|]. intros b [? Hb]. by rewrite lookup_empty in Hb. }
    eexists. split; [done|].
    apply (written_by_step pre config (key :: rest) k0); [done|..]; simpl.
    + unfold head_key. by rewrite Hsplit.
    + rewrite Hf. apply empty_difference_L.
    + done.
    + intros a Ha. by apply (lookup_insert_ne (own config)).
    + intros v Hv. left.
      assert (v = VObj (assign k1 (val_of rest) o)) as ->.
      { unfold lookup, config_lookup in Hv. simpl in Hv.
        rewrite lookup_insert_eq in Hv. congruence. }
      eexists. split; [done|]. intros b Hb.
      destruct (decide (b = k1)) as [->|Hbk].
      * exists (key :: rest). split; [apply elem_of_app; right; by left|].
        unfold dotted, head_key, second_key. by rewrite Hsplit.
      * rewrite lookup_assign_ne in Hb by done.
        destruct (Ho b Hb) as (kv' & Hin & H). exists kv'.
        split; [|done]. apply elem_of_app. by left.
Qed.

Lemma reduce_written_by l : ∀ pre config,
  written_by pre config → Forall (λ kv, kv ≠ []) l → ordinary l = true →
  ¬ clash (pre ++ l) →
  ∃ config', reduce config l = Done config' ∧ written_by (pre ++ l) config'.
Proof.
  induction l as [|kv l IH]; intros pre config Hw Hne Hord Hclash.
  - exists config. by rewrite app_nil_r.
  - apply Forall_cons in Hne as [Hkv Hne].
    simpl in Hord. apply andb_prop in Hord as [Hord1 Hord].
    destruct (reduce_step_written_by pre config kv) as (c & Hstep & Hc); [done..| | |].
    { simpl. by rewrite Hord1. }
    { intros H. apply Hclash. rewrite cons_middle, app_assoc. by apply clash_app. }
    destruct (IH (pre ++ [kv]) c) as (config' & Hred & Hw'); [done..| |].
    { by rewrite <- app_assoc. }
    exists config'. simpl. rewrite Hstep. simpl.
    split; [done|]. by rewrite cons_middle, app_assoc.
Qed.

Section Parser.

Variable StringToNumber : string → option Z.

Local Abbreviation add_secure := (add_secure StringToNumber).
Local Abbreviation smtpConfig := (smtpConfig StringToNumber).

(** With ordinary keys the comparison of the port does not throw. *)
Lemma add_secure_written_by l config :
  written_by l config → ordinary l = true →
  ∃ config', add_secure config = Done config'
             ∧ functions config' = ∅ ∧ prototype config' = ∅.
Proof.
  intros (Hf & Hp & Hprim & Hfield) Hord. unfold Mail.add_secure.
  destruct (truthy (property config "port")); [|by exists config].
  assert (∃ secure, loose_eq_num StringToNumber config (property config "port") 465
                    = Done secure) as [secure ->].
  { unfold property. rewrite Hp, lookup_empty. simpl.
    change (own config !! "port") with (config !! "port").
    destruct (config !! "port") as [[| | | | |o]|] eqn:Hport; simpl; try by eexists.
    rewrite Hp, lookup_empty.
    rewrite !bool_decide_eq_false_2; [by eexists|by intros [? ?]|].
    intros Hts. destruct (Hfield _ _ _ Hport Hts) as (kv & Hin & Hd & Hh & Hs).
    destruct (ordinary_spec l kv Hord Hin) as [_ H]. by destruct (H Hd) as (_ & _ & []). }
  simpl. eexists. split; [done|]. unfold set_own. simpl.
  split; [|done]. rewrite Hf. apply empty_difference_L.
Qed.

(** The parser takes the string apart as [smtpKeyVal] says. *)
Lemma smtpConfig_done env config :
  smtpConfig env = Done config ↔
  ∃ c, reduce ∅ (smtpKeyVal env) = Done c ∧ add_secure c = Done config.
Proof. unfold Mail.smtpConfig. apply bind_done. Qed.

End Parser.

(** C6, as stated, fails: a [port] key with an empty value is stored, and
    no [secure] field is added; a dotted key after a plain key of the same
    name with a value makes the parser throw, and so does a dotted key
    that reaches a property of a function of [Object.prototype] that
    cannot be written; the key [__proto__] is not stored, a key that
    begins with it writes on [Object.prototype] and not on the
    configuration, and as second part of a key it sets no field; the key
    [port.toString] makes the comparison of the port throw; and a value is
    stored up to its first equals sign only. *)
Lemma transporter_exceptions :
  (∃ config,
     smtpConfig decimal "host=smtp.mailhost.com; port=" = Done config
     ∧ config !! "port" = Some (VStr EmptyString)
     ∧ config !! "secure" = None)
  ∧ (∃ e, smtpConfig decimal "auth=x; auth.user=me" = Throws e)
  ∧ (∃ e, smtpConfig decimal "constructor.name=x" = Throws e)
  ∧ (∃ config,
       smtpConfig decimal "__proto__=x" = Done config
       ∧ config !! "__proto__" = None)
  ∧ (∃ config,
       smtpConfig decimal "__proto__.user=me" = Done config
       ∧ own config = ∅ ∧ prototype config !! "user" = Some (VStr "me"))
  ∧ (∃ config,
       smtpConfig decimal "auth.__proto__=x" = Done config
       ∧ config !! "auth" = Some (VObj ∅))
  ∧ (∃ e, smtpConfig decimal "port.toString=x" = Throws e)
  ∧ (∃ config,
       smtpConfig decimal "pass=a=b" = Done config
       ∧ config !! "pass" = Some (VStr "a")).
Proof.
  split_and!.
  - eexists. split; [vm_compute; reflexivity|]. by split.
  - eexists. vm_compute. reflexivity.
  - eexists. vm_compute. reflexivity.
  - eexists. split; [vm_compute; reflexivity|]. done.
  - eexists. split; [vm_compute; reflexivity|]. done.
  - eexists. split; [vm_compute; reflexivity|]. done.
  - eexists. vm_compute. reflexivity.
  - eexists. split; [vm_compute; reflexivity|]. done.
Qed.

(** C6 (amended): a connection string of semicolon-separated [key=value]
    pairs, each with white space around it, is taken apart into the keys
    and the values up to their first equals sign. The parser throws when
    a dotted key [a.b] finds the non-empty value of a plain key [a]
    ([__proto__] apart); with keys that stay clear of [Object.prototype]
    it returns a configuration in every other case, and that is a plain
    dictionary. Every configuration the parser returns maps each plain
    key to its value, holds for each dotted key [a.b] an object at [a]
    whose field [b] is the value (the last segment that writes a property
    deciding it, [__proto__] and [secure] apart), has a [secure] field
    that is true iff the value of [port] equals 465 whenever the [port]
    key has a non-empty value, and is what the pairs made it when [port]
    is empty or missing. *)
Theorem transporter_config (StringToNumber : string → option Z)
    (segs : list Segment) :
  segs ≠ [] →
  forallb well_formed segs = true →
  let env := connection_string segs in
  smtpKeyVal env = tokens segs
  ∧ (clash (tokens segs) → ∃ e, smtpConfig StringToNumber env = Throws e)
  ∧ (ordinary (tokens segs) = true → ¬ clash (tokens segs) →
     ∃ config, smtpConfig StringToNumber env = Done config
               ∧ functions config = ∅ ∧ prototype config = ∅)
  ∧ (∀ config, smtpConfig StringToNumber env = Done config →
       stores_plain_keys (tokens segs) config
       ∧ stores_dotted_keys (tokens segs) config
       ∧ adds_secure StringToNumber (tokens segs) config
       ∧ (truthy (property config "port") = false →
          reduce ∅ (tokens segs) = Done config)).
Proof.
  intros Hne Hwf env.
  pose proof (smtpKeyVal_tokens segs Hne Hwf) as Htok. fold env in Htok.
  split; [done|]. split_and!.
  - intros (pre & key & v & rest & mid & key' & rest' & post & a & b & more
            & Hl & Hkey & Hv & Hmid & Hkey' & Ha & Hb).
    destruct (plain_then_dotted pre key v rest mid key' rest' post a b more)
      as [e He]; [done..|].
    exists e. unfold smtpConfig. by rewrite Htok, Hl, He.
  - intros Hord Hclash.
    destruct (reduce_written_by (tokens segs) [] ∅) as (c & Hred & Hw);
      [apply written_by_empty| |done|done|].
    { unfold tokens. apply Forall_fmap, Forall_forall. by intros seg _. }
    destruct (add_secure_written_by StringToNumber _ c Hw Hord)
      as (config & Hsec & Hf & Hp).
    exists config. split; [|done].
    apply smtpConfig_done. exists c. by rewrite Htok.
  - intros config (c & Hred & Hsec)%smtpConfig_done. rewrite Htok in Hred.
    split_and!.
    + intros pre key rest post k Hl Hsplit Hpost Hk Hsecure.
      rewrite (add_secure_other _ _ _ _ Hsec) by done.
      by eapply reduce_stores_plain.
    + intros pre key rest post a b more Hl Hsplit Hpost Ha Hb Hsecure.
      destruct (reduce_stores_dotted _ c Hred _ _ _ _ _ _ _ Hl Hsplit Hpost Ha Hb)
        as (o & Ho & Hfield).
      exists o. by rewrite (add_secure_other _ _ _ _ Hsec).
    + intros pre p rest post Hl Hpost Hp.
      eapply add_secure_port; [|done..].
      by eapply (reduce_stores_plain _ c Hred pre "port" (p :: rest)).
    + intros Hport. by rewrite (add_secure_none _ _ _ Hsec Hport).
Qed.

(** The second example of the module's documentation. *)
Lemma transporter_config_witness :
  let segs :=
    [ {| before := EmptyString; seg_key := "host";
         seg_value := "smtp.mailhost.com"; after := EmptyString |};
      {| before := " "; seg_key := "port"; seg_value := "587";
         after := EmptyString |};
      {| before := " "; seg_key := "auth.user"; seg_value := "myusername";
         after := EmptyString |};
      {| before := " "; seg_key := "auth.pass"; seg_value := "mypassword";
         after := EmptyString |} ] in
  let env := "host=smtp.mailhost.com; port=587; auth.user=myusername; auth.pass=mypassword" in
  connection_string segs = env
  ∧ forallb well_formed segs = true
  ∧ ordinary (tokens segs) = true
  ∧ smtpKeyVal env
    = [ ["host"; "smtp.mailhost.com"]; ["port"; "587"];
        ["auth.user"; "myusername"]; ["auth.pass"; "mypassword"] ]
  ∧ (∃ config, smtpConfig decimal env = Done config)
  ∧ ∀ config, smtpConfig decimal env = Done config →
      config !! "host" = Some (VStr "smtp.mailhost.com")
      ∧ has_field config "auth" "user" (VStr "myusername")
      ∧ has_field config "auth" "pass" (VStr "mypassword")
      ∧ config !! "secure" = Some (VBool false).
Proof.
  intros segs env.
  destruct (transporter_config decimal segs) as (H1 & _ & _ & H3);
    [discriminate | reflexivity |].
  split; [reflexivity|]. split; [reflexivity|]. split; [reflexivity|].
  split; [exact H1|].
  split; [eexists; vm_compute; reflexivity|].
  intros config Hconfig.
  destruct (H3 config Hconfig) as (Hplain & Hdotted & Hsecure & _).
  split; [|split; [|split]].
  - apply (Hplain [] "host" ["smtp.mailhost.com"]
             [ ["port"; "587"]; ["auth.user"; "myusername"];
               ["auth.pass"; "mypassword"] ] "host");
      [reflexivity | reflexivity | | discriminate | discriminate].
    repeat constructor; discriminate.
  - apply (Hdotted [ ["host"; "smtp.mailhost.com"]; ["port"; "587"] ]
             "auth.user" ["myusername"] [ ["auth.pass"; "mypassword"] ]
             "auth" "user" []);
      [reflexivity | reflexivity | | discriminate..].
    repeat constructor. intros [_ H]. discriminate H.
  - apply (Hdotted [ ["host"; "smtp.mailhost.com"]; ["port"; "587"];
                     ["auth.user"; "myusername"] ]
             "auth.pass" ["mypassword"] [] "auth" "pass" []);
      [reflexivity | reflexivity | constructor | discriminate..].
  - apply (Hsecure [ ["host"; "smtp.mailhost.com"] ] "587" []
             [ ["auth.user"; "myusername"]; ["auth.pass"; "mypassword"] ]);
      [reflexivity | | discriminate].
    repeat constructor; discriminate.
Defined.

End MailConfig.

(* ================================================================== *)
(** ** lib/mail.js: who receives a message *)
(* ================================================================== *)

Module MailSend.
Import Mail.

Section Senders.

Variable StringToNumber : string → option Z.
Variable SMTP_CONNECTION : option string.
Variable User_get : Z → option User.
Variable readFile : string → outcome string.
Variable Context : Type.
Variable handlebars : string → Context → outcome string.
Variable title : string → option string.
Variable htmlToText : string → string.

Local Abbreviation sendMail := (sendMail StringToNumber SMTP_CONNECTION).
Local Abbreviation dispatch := (dispatch StringToNumber SMTP_CONNECTION User_get).
Local Abbreviation send it :=
  (send StringToNumber SMTP_CONNECTION it User_get readFile Context handlebars
     title htmlToText).
Local Abbreviation sendHtml it :=
  (sendHtml StringToNumber SMTP_CONNECTION it User_get htmlToText).
Local Abbreviation sendText it :=
  (sendText StringToNumber SMTP_CONNECTION it User_get).
Local Abbreviation dev_safe := (dev_safe User_get).

(** [sendMail] adds the message it is given, or nothing. *)
Lemma sendMail_outbox message w :
  outbox (sendMail message w).2 = outbox w
  ∨ outbox (sendMail message w).2 = outbox w ++ [message].
Proof.
  unfold Mail.sendMail.
  destruct (transporter _ _ _) as [[t cache]|e]; simpl; auto.
Qed.

Lemma dispatch_dev_safe to0 message ctx :
  app_env ctx ≠ "production" → dev_safe to0 ctx (dispatch to0 message ctx).
Proof.
  intros Henv w. apply String.eqb_neq in Henv.
  unfold Mail.dispatch. rewrite Henv. simpl.
  destruct (state_user ctx) as [id|] eqn:Hu; simpl.
  - split; [done|].
    unfold bindM. destruct (User_get id) as [u|] eqn:Hget; simpl; [|by left].
    destruct (sendMail_outbox (redirect message u to0) w) as [H|H]; [by left|].
    right. exists id, u, (redirect message u to0). by rewrite H.
  - by split; [|left].
Qed.

(** A step that fails or succeeds without touching the state, followed by
    a safe continuation. *)
Lemma dev_safe_lift {A} to0 ctx (x : outcome A) (k : A → M World unit) :
  (∀ a, dev_safe to0 ctx (k a)) → dev_safe to0 ctx (bindM (lift x) k).
Proof.
  intros Hk w. unfold bindM, lift. destruct x as [a|e]; simpl.
  - apply Hk.
  - by split; [|left].
Qed.

Lemma send_dev_safe it to0 template context ctx :
  app_env ctx ≠ "production" →
  dev_safe to0 ctx (send it to0 template context ctx).
Proof.
  intros Henv. unfold Mail.send. destruct it.
  { intros w. by split; [|left]. }
  apply dev_safe_lift; intros templateHtml.
  apply dev_safe_lift; intros html0.
  destruct (title html0) as [t|].
  - intros w. unfold bindM, ret. simpl. by apply dispatch_dev_safe.
  - intros w. by split; [|left].
Qed.

Lemma sendHtml_dev_safe it to0 subject0 html0 ctx :
  app_env ctx ≠ "production" →
  dev_safe to0 ctx (sendHtml it to0 subject0 html0 ctx).
Proof.
  intros Henv. unfold Mail.sendHtml. destruct it.
  - intros w. by split; [|left].
  - by apply dispatch_dev_safe.
Qed.

Lemma sendText_dev_safe it to0 subject0 text0 ctx :
  app_env ctx ≠ "production" →
  dev_safe to0 ctx (sendText it to0 subject0 text0 ctx).
Proof.
  intros Henv. unfold Mail.sendText. destruct it.
  - intros w. by split; [|left].
  - by apply dispatch_dev_safe.
Qed.

(** C10: under the test framework ([global.it] set) the three senders
    leave the world as it is, in every environment; and outside production,
    whatever [global.it] is, each of them sends nothing when nobody is
    logged in and otherwise sends nothing or one message, addressed to the
    logged-in user's Email with the named recipient in [X-Orig-To]. *)
Theorem mail_outside_production it to0 template context subject0 body ctx :
  (∀ w, send true to0 template context ctx w = (Done tt, w)
        ∧ sendHtml true to0 subject0 body ctx w = (Done tt, w)
        ∧ sendText true to0 subject0 body ctx w = (Done tt, w))
  ∧ (app_env ctx ≠ "production" →
     dev_safe to0 ctx (send it to0 template context ctx)
     ∧ dev_safe to0 ctx (sendHtml it to0 subject0 body ctx)
     ∧ dev_safe to0 ctx (sendText it to0 subject0 body ctx)).
Proof.
  split; [done|]. intros Henv.
  auto using send_dev_safe, sendHtml_dev_safe, sendText_dev_safe.
Qed.

End Senders.

Example send_development_logged_in :
  outbox (MailSample.send "development" (Some 7%Z) MailSample.world).2
  = [ {| to := "dev@example.com"; from := "noreply@movable-type.co.uk";
         subject := "Welcome"; html := Some "<title>Welcome</title>";
         text := "WELCOME"; headers := [("X-Orig-To", "guest@example.org")] |} ].
Proof. vm_compute. reflexivity. Qed.

Example send_development_anonymous :
  MailSample.send "development" None MailSample.world = (Done tt, MailSample.world).
Proof. vm_compute. reflexivity. Qed.

Example send_production :
  outbox (MailSample.send "production" None MailSample.world).2
  = [ {| to := "guest@example.org"; from := "noreply@movable-type.co.uk";
         subject := "Welcome"; html := Some "<title>Welcome</title>";
         text := "WELCOME"; headers := [] |} ].
Proof. vm_compute. reflexivity. Qed.

(** A developer, logged in, triggers a mail to a guest. *)
Lemma mail_outside_production_witness :
  let ctx := {| app_env := "development"; state_user := Some 7%Z |} in
  app_env ctx ≠ "production"
  ∧ dev_safe MailSample.User_get "guest@example.org" ctx
      (send decimal (Some "service=gmail") false MailSample.User_get
         MailSample.readFile unit MailSample.handlebars MailSample.title
         MailSample.htmlToText "guest@example.org" "welcome" tt ctx).
Proof.
  intros ctx. split; [by vm_compute|].
  destruct (mail_outside_production decimal (Some "service=gmail")
              MailSample.User_get MailSample.readFile unit MailSample.handlebars
              MailSample.title MailSample.htmlToText false "guest@example.org"
              "welcome" tt "Hello" "<p>Hello</p>" ctx) as [_ H].
  destruct H as [H _]; [by vm_compute|].
  exact H.
Defined.

End MailSend.

(* ================================================================== *)
(** ** app-admin/routes-ajax.js *)
(* ================================================================== *)

Module AjaxRelay.
Import Ajax.

Example base64_Man : base64Encode "Man" = "TWFu".
Proof. reflexivity. Qed.

Example base64_Ma : base64Encode "Ma" = "TWE=".
Proof. reflexivity. Qed.

Example base64_M : base64Encode "M" = "TQ==".
Proof. reflexivity. Qed.

Example base64_basic_auth :
  base64Encode "Aladdin:open sesame" = "QWxhZGRpbjpvcGVuIHNlc2FtZQ==".
Proof. reflexivity. Qed.

Example captures_members : captures "/ajax/members/123456" = Some "members/123456".
Proof. reflexivity. Qed.

Example captures_other : captures "/members/123456" = None.
Proof. reflexivity. Qed.

(** A fresh token (issued at 1000, read at 2000) is kept and the request
    is forwarded with it. *)
Example run_fresh :
  AjaxSample.run 7 2000 "admin.localhost"
  = (Done tt, {| db := AjaxSample.users;
                 user := Some {| UserId := 7; ApiToken := Some "1000" |};
                 status := 200; body := Data "[1,2]" |}).
Proof. vm_compute. reflexivity. Qed.

(** One millisecond more than a day later the token is renewed. *)
Example run_stale :
  (AjaxSample.run 7 86401001 "admin.localhost").2.(user)
  = Some {| UserId := 7; ApiToken := Some "86401001" |}.
Proof. vm_compute. reflexivity. Qed.

Example run_day_old :
  (AjaxSample.run 7 86401000 "admin.localhost").2.(user)
  = Some {| UserId := 7; ApiToken := Some "1000" |}.
Proof. vm_compute. reflexivity. Qed.

Example run_offline :
  AjaxSample.run 7 2000 "admin.offline"
  = (Done tt, {| db := AjaxSample.users;
                 user := Some {| UserId := 7; ApiToken := Some "1000" |};
                 status := 500;
                 body := Text "getaddrinfo ENOTFOUND api.offline" |}).
Proof. vm_compute. reflexivity. Qed.

(** [replace] on a host that starts with the pattern, as in
    admin.app.com, and on a host without it. *)
Lemma replace_prefix p r s : JsString.replace p r (p +:+ s) = r +:+ s.
Proof.
  destruct p as [|a p].
  - by destruct s.
  - rewrite JsStringFacts.app_String. simpl.
    rewrite Ascii.eqb_refl, JsStringFacts.starts_with_app. simpl.
    by rewrite JsStringFacts.drop_app.
Qed.

Lemma contains_eq p s :
  JsString.contains p s
  = JsString.starts_with p s
    || match s with EmptyString => false | String _ s' => JsString.contains p s' end.
Proof. by destruct s. Qed.

Lemma replace_eq p r s :
  JsString.replace p r s
  = if JsString.starts_with p s then r +:+ JsString.drop (String.length p) s
    else match s with
         | EmptyString => EmptyString
         | String a s' => String a (JsString.replace p r s')
         end.
Proof. by destruct s. Qed.

Lemma replace_absent p r s :
  JsString.contains p s = false → JsString.replace p r s = s.
Proof.
  induction s as [|a s IH]; rewrite contains_eq, replace_eq;
    intros [-> H]%orb_false_elim; [done|].
  f_equal. by apply IH.
Qed.

Lemma captures_suffix r : captures ("/ajax/" +:+ r) = Some (JsString.line r).
Proof. reflexivity. Qed.

Section Relay.

Context {Store Json : Type}.
Variable User_update : Store → Z → string → Store.
Variable User_get : Store → Z → option User.
Variable Date_parse : string → option Z.
Variable toISOString : Z → string.
Variable sha1_hex : string → string.
Variable JSON_stringify : Json → string.
Variable fetch : Outgoing → M Store (Response Json).

Local Abbreviation St := (State Store Json).
Local Abbreviation expired := (expired Date_parse).
Local Abbreviation renew := (renew User_update User_get Date_parse toISOString).
Local Abbreviation outgoing := (outgoing (Store:=Store) sha1_hex JSON_stringify).
Local Abbreviation relay := (relay fetch).
Local Abbreviation forward := (forward sha1_hex JSON_stringify fetch).
Local Abbreviation getAjax :=
  (getAjax User_update User_get Date_parse toISOString sha1_hex JSON_stringify fetch).
Local Abbreviation route :=
  (route User_update User_get Date_parse toISOString sha1_hex JSON_stringify fetch).

Lemma expired_iff usr now :
  expired usr now = true ↔
  ApiToken usr = None
  ∨ ∃ token issued, ApiToken usr = Some token ∧ Date_parse token = Some issued
                    ∧ (86400000 < now - issued)%Z.
Proof.
  unfold Ajax.expired. destruct (ApiToken usr) as [token|]; [|naive_solver].
  destruct (Date_parse token) as [issued|] eqn:Hp.
  - rewrite Z.ltb_lt. split.
    + intros H. right. exists token, issued. split_and!; [done..|lia].
    + intros [?|(t & i & [= <-] & Hi & ?)]; [done|].
      rewrite Hp in Hi. injection Hi as <-. lia.
  - split; [done|]. intros [?|(t & i & [= <-] & Hi & ?)]; [done|].
    by rewrite Hp in Hi.
Qed.

(** C1: the relay renews the token exactly when the stored ApiToken is null
    or was issued more than 86,400,000 ms before the current time; the new
    token is the ISO string of the current date, written with User.update
    and read back into the session with User.get; otherwise nothing is
    changed; and the request is forwarded from the state so obtained. *)
Theorem token_renewal (now today : Z) (s : St) (usr : User) :
  user s = Some usr →
  (expired usr now = true ↔
     ApiToken usr = None
     ∨ ∃ token issued, ApiToken usr = Some token ∧ Date_parse token = Some issued
                       ∧ (86400000 < now - issued)%Z)
  ∧ (expired usr now = true →
     let db' := User_update (db s) (UserId usr) (toISOString today) in
     renew now today s
     = (Done tt, {| db := db'; user := User_get db' (UserId usr);
                    status := status s; body := body s |}))
  ∧ (expired usr now = false → renew now today s = (Done tt, s))
  ∧ (∀ resource inc,
       getAjax resource now today inc s = forward resource inc (renew now today s).2).
Proof.
  intros Hu. split; [apply expired_iff|].
  assert (∀ b, expired usr now = b →
    renew now today s
    = (Done tt, if b then
         let db' := User_update (db s) (UserId usr) (toISOString today) in
         {| db := db'; user := User_get db' (UserId usr);
            status := status s; body := body s |}
       else s)) as Hrenew.
  { intros b Hb. unfold Ajax.renew, bindM, the_user. rewrite Hu, Hb.
    destruct b; [done|]. by destruct s. }
  split_and!.
  - intros H. by rewrite (Hrenew true).
  - intros H. by rewrite (Hrenew false).
  - intros resource inc. unfold Ajax.getAjax, bindM at 1.
    by rewrite (Hrenew (expired usr now)).
Qed.

(** C2: for a path the route matches and a session user with a token
    after the renewal step, the request handed to fetch has the url made of
    the incoming protocol, the incoming host with admin replaced by api and
    the captured rest of the path; the incoming method; as body the JSON
    serialization of the incoming body, or the empty string when that is
    "{}"; and the Authorization header "Basic " followed by the base64
    encoding of UserId, a colon and the hexadecimal SHA-1 of ApiToken. *)
Theorem forwarded_request (resource : string) (now today : Z)
    (inc : Incoming Json) (s0 s : St) (usr : User) (token : string) :
  captures (path inc) = Some resource →
  renew now today s0 = (Done tt, s) →
  user s = Some usr →
  ApiToken usr = Some token →
  let serialized := JSON_stringify (request_body inc) in
  let req :=
    {| url := protocol inc +:+ "://" +:+ JsString.replace "admin" "api" (host inc)
              +:+ "/" +:+ resource;
       out_method := method inc;
       out_body := if String.eqb serialized "{}" then EmptyString else serialized;
       ContentType := "application/json";
       Accept := accept inc;
       Authorization :=
         "Basic " +:+ base64Encode (pretty (UserId usr) +:+ ":" +:+ sha1_hex token) |} in
  outgoing resource inc s = (Done req, s)
  ∧ route now today inc s0
    = try_catch (response ← call fetch req ; respond response) failed s.
Proof.
  intros Hcap Hrenew Hu Htok serialized req.
  assert (outgoing resource inc s = (Done req, s)) as Hout.
  { unfold Ajax.outgoing, bindM, the_user. by rewrite Hu, Htok. }
  split; [done|].
  unfold Ajax.route. rewrite Hcap.
  unfold Ajax.getAjax, bindM at 1. rewrite Hrenew.
  unfold Ajax.forward, bindM at 1. by rewrite Hout.
Qed.

(** C8: when the forwarded request fails, the relay does not throw: it
    answers with status 500 and the message of the error as body. No other
    failure inside the [try] block is propagated either. *)
Theorem relay_failure (resource : string) (inc : Incoming Json)
    (s : St) (req : Outgoing) (e : Error) (d : Store) :
  outgoing resource inc s = (Done req, s) →
  fetch req (db s) = (Throws e, d) →
  forward resource inc s
  = (Done tt, {| db := d; user := user s; status := 500;
                 body := match err_message e with
                         | Some m => Text m
                         | None => Unset
                         end |})
  ∧ ∀ s', (try_catch (relay req) failed s').1 = Done tt.
Proof.
  intros Hout Hfetch. split.
  - unfold Ajax.forward, bindM at 1. rewrite Hout.
    unfold try_catch, Ajax.relay, bindM at 1, call. by rewrite Hfetch.
  - intros s'. unfold try_catch. by destruct (relay req s') as [[[]|e'] s''].
Qed.

End Relay.

(** A token issued at 1000 is renewed at 86401001. *)
Lemma token_renewal_witness :
  let s := AjaxSample.state 7 in
  let usr := {| UserId := 7; ApiToken := Some "1000" |} in
  user s = Some usr
  ∧ expired AjaxSample.Date_parse usr 86401001 = true
  ∧ renew AjaxSample.User_update AjaxSample.User_get AjaxSample.Date_parse
      AjaxSample.toISOString 86401001 86401002 s
    = (Done tt,
       {| db := AjaxSample.User_update AjaxSample.users 7 "86401002";
          user := Some {| UserId := 7; ApiToken := Some "86401002" |};
          status := 404; body := Unset |}).
Proof.
  intros s usr. split; [reflexivity|]. split; [reflexivity|].
  destruct (token_renewal AjaxSample.User_update AjaxSample.User_get
              AjaxSample.Date_parse AjaxSample.toISOString AjaxSample.sha1_hex
              (λ j : string, j) AjaxSample.fetch 86401001 86401002 s usr)
    as (_ & H & _); [reflexivity|].
  apply H. reflexivity.
Defined.

(** GET admin.localhost/ajax/members/123456 goes to api.localhost. *)
Lemma forwarded_request_witness :
  let s := AjaxSample.state 7 in
  let inc := AjaxSample.incoming "admin.localhost" in
  captures (path inc) = Some "members/123456"
  ∧ outgoing (Store:=gmap Z User) AjaxSample.sha1_hex (λ j : string, j)
      "members/123456" inc s
    = (Done {| url := "http://api.localhost/members/123456";
               out_method := "GET"; out_body := EmptyString;
               ContentType := "application/json";
               Accept := Some "application/json";
               Authorization := "Basic Nzo1aGExMTAwMA==" |}, s).
Proof.
  intros s inc. split; [reflexivity|].
  destruct (forwarded_request AjaxSample.User_update AjaxSample.User_get
              AjaxSample.Date_parse AjaxSample.toISOString AjaxSample.sha1_hex
              (λ j : string, j) AjaxSample.fetch "members/123456" 2000 2000 inc s s
              {| UserId := 7; ApiToken := Some "1000" |} "1000")
    as [H _]; [reflexivity..|].
  exact H.
Defined.

(** The API host cannot be resolved. *)
Lemma relay_failure_witness :
  let s := AjaxSample.state 7 in
  let inc := AjaxSample.incoming "admin.offline" in
  forward AjaxSample.sha1_hex (λ j : string, j) AjaxSample.fetch
    "members/123456" inc s
  = (Done tt, {| db := AjaxSample.users; user := user s; status := 500;
                 body := Text "getaddrinfo ENOTFOUND api.offline" |}).
Proof.
  intros s inc.
  destruct (relay_failure AjaxSample.sha1_hex (λ j : string, j) AjaxSample.fetch
              "members/123456" inc s
              {| url := "http://api.offline/members/123456";
                 out_method := "GET"; out_body := EmptyString;
                 ContentType := "application/json";
                 Accept := Some "application/json";
                 Authorization := "Basic Nzo1aGExMTAwMA==" |}
              {| err_status := None;
                 err_message := Some "getaddrinfo ENOTFOUND api.offline";
                 err_stack := None |}
              AjaxSample.users)
    as [H _]; [reflexivity..|].
  exact H.
Defined.

End AjaxRelay.

(* ================================================================== *)
(** ** app-www/app-www.js *)
(* ================================================================== *)

Module WwwApp.
Import Www.

Example get_home :
  WwwSample.app "development" (WwwSample.request "GET" "/" VUndef)
  = (Done tt,
     {| method := "GET"; host := "www.example.com"; path := "/";
        request_body := VUndef; status := 200; body := Html "<h1>Home</h1>";
        state_domain := "example.com"; clock := 0;
        log_access := [ {| acc_method := "GET"; acc_host := "www.example.com";
                           acc_path := "/"; acc_status := 200; acc_ms := 0 |} ];
        log_error := [] |}).
Proof. vm_compute. reflexivity. Qed.

Example get_static :
  WwwSample.app "development" (WwwSample.request "GET" "/css/base.css" VUndef)
  = (Done tt,
     set_body (File "body { margin: 0 }")
       (set_status 200 (WwwSample.request "GET" "/css/base.css" VUndef))).
Proof. vm_compute. reflexivity. Qed.

Example get_missing :
  let c' := (WwwSample.app "production" (WwwSample.request "GET" "/nowhere" VUndef)).2 in
  status c' = 404%Z
  ∧ body c' = Rendered "404-not-found"
                {| err_status := Some 404%Z; err_message := None; err_stack := None |}
  ∧ log_error c' = [ {| err_status := Some 404%Z; err_message := None;
                        err_stack := None |} ].
Proof. vm_compute. done. Qed.

(** An error whose status is no status code leaves the app as an
    assertion error: no page, and no line in either log. *)
Example get_answer :
  let c := WwwSample.request "GET" "/answer" VUndef in
  WwwSample.app "development" c
  = (Throws (AssertionError "invalid status code: 42"),
     set_domain "example.com" c).
Proof. vm_compute. reflexivity. Qed.

Example post_trimmed :
  request_body
    (WwwSample.app "development"
       (WwwSample.request "POST" "/"
          (VObj (<["name" := VStr "  Ann "]> (<["note" := VStr "   "]>
                 (<["age" := VNum 7]> ∅)))))).2
  = VObj (<["name" := VStr "Ann"]> (<["note" := VNull]> (<["age" := VNum 7]> ∅))).
Proof. vm_compute. reflexivity. Qed.

(** What [clean] does to one field. *)
Lemma clean_spec v :
  (∀ s, v = VStr s → JsString.trim s ≠ EmptyString → clean v = VStr (JsString.trim s))
  ∧ (∀ s, v = VStr s → JsString.trim s = EmptyString → clean v = VNull)
  ∧ ((∀ s, v ≠ VStr s) → clean v = v).
Proof.
  split_and!.
  - intros s -> H. simpl. by apply String.eqb_neq in H as ->.
  - intros s -> H. simpl. by apply String.eqb_eq in H as ->.
  - intros H. destruct v; try done. by destruct (H s).
Qed.

(** [cleanPost], case by case. *)
Lemma cleanPost_cases (next : M Ctx unit) (c : Ctx) :
  cleanPost next c
  = match request_body c with
    | VUndef => next c
    | VObj o =>
        match cleaned o with
        | Done o' => next (set_request_body (VObj o') c)
        | Throws e => (Throws e, c)
        end
    | _ => (Throws (TypeError "Cannot use 'in' operator to search for 'fields'"), c)
    end.
Proof.
  unfold cleanPost, bindM, read, lift, modify.
  by destruct (request_body c) as [| | | | |o].
Qed.

Lemma set_request_body_same (c : Ctx) v :
  request_body c = v → set_request_body v c = c.
Proof. intros <-. by destruct c. Qed.




(** *** The error handler *)

Section Errors.

Variable codes : StatusCodes.
Variable env : string.

Local Abbreviation handleErrors := (handleErrors codes env).

(** The context the [catch] block leaves for an error [err] caught in the
    context [c1], when its status is a status code. *)
Lemma handleErrors_catch (next : M Ctx unit) (c c1 : Ctx) (err : Error) :
  next c = (Throws err, c1) →
  let code := status_or_500 err in
  valid_status codes code = true →
  let err1 := if String.eqb env "production" then delete_stack err else err in
  let err2 := if (code =? 404)%Z then personalise err1 else err1 in
  handleErrors next c
  = (Done tt,
     {| method := method c1; host := host c1; path := path c1;
        request_body := request_body c1;
        status := code;
        body := Rendered (if (code =? 404)%Z then "404-not-found"
                          else "500-internal-server-error") err2;
        state_domain := state_domain c1; clock := clock c1;
        log_access := log_access c1;
        log_error := capped 1000 (log_error c1) err2 |}).
Proof.
  intros Hnext code Hvalid.
  unfold Www.handleErrors, try_catch, assign_status. rewrite Hnext.
  fold code. by rewrite Hvalid.
Qed.

(** The [catch] block fails at its first statement when the status is no
    status code. *)
Lemma handleErrors_reject (next : M Ctx unit) (c c1 : Ctx) (err : Error) :
  next c = (Throws err, c1) →
  valid_status codes (status_or_500 err) = false →
  handleErrors next c
  = (Throws (AssertionError ("invalid status code: " +:+ pretty (status_or_500 err))),
     c1).
Proof.
  intros Hnext Hvalid.
  unfold Www.handleErrors, try_catch, assign_status. rewrite Hnext.
  by rewrite Hvalid.
Qed.

Lemma handleErrors_pass (next : M Ctx unit) (c c1 : Ctx) :
  next c = (Done tt, c1) → handleErrors next c = (Done tt, c1).
Proof. intros Hnext. unfold Www.handleErrors, try_catch. by rewrite Hnext. Qed.

Lemma capped_last {A} (l : list A) (x : A) : last (capped 1000 l x) = Some x.
Proof.
  unfold capped. rewrite drop_app_le; [apply last_snoc|].
  rewrite length_app. simpl. lia.
Qed.

Lemma personalise_message e :
  err_message (personalise e)
  = if bool_decide (err_message e = Some "Not Found") then None else err_message e.
Proof.
  unfold personalise. destruct (err_message e) as [m|] eqn:Hm; [|done].
  destruct (String.eqb m "Not Found") eqn:Hnf; simpl.
  - apply String.eqb_eq in Hnf as ->. by rewrite bool_decide_eq_true_2.
  - apply String.eqb_neq in Hnf. rewrite bool_decide_eq_false_2; [done|congruence].
Qed.

Lemma personalise_stack e : err_stack (personalise e) = err_stack e.
Proof.
  unfold personalise. destruct (err_message e) as [m|]; [|done].
  by destruct (String.eqb m "Not Found").
Qed.

Lemma personalise_status e : err_status (personalise e) = err_status e.
Proof.
  unfold personalise. destruct (err_message e) as [m|]; [|done].
  by destruct (String.eqb m "Not Found").
Qed.

Lemma if_bool_decide_ext {A} (P Q : Prop) `{Decision P, Decision Q} (x y : A) :
  (P ↔ Q) → (if bool_decide P then x else y) = (if bool_decide Q then x else y).
Proof. intros HPQ. by rewrite (bool_decide_ext P Q HPQ). Qed.

(** C3 (amended): an exception thrown downstream is caught. When the
    error's status, or 500 when that is absent or 0, is a status code for
    Koa, it is the response status; the page is the 404-not-found template
    for status 404, with the message cleared when it is "Not Found", and
    the 500-internal-server-error template otherwise; in production the
    stack is deleted before rendering; and the error is the newest entry
    of the error log. When it is no status code, the handler throws the
    assertion error of Koa's setter and leaves the context as it found
    it: no page is rendered and nothing is logged. *)
Theorem errors_rendered (next : M Ctx unit) (c c1 : Ctx) (err : Error) :
  next c = (Throws err, c1) →
  let code := match err_status err with
              | Some n => if (n =? 0)%Z then 500%Z else n
              | None => 500%Z
              end in
  (valid_status codes code = true →
   ∃ c' err',
     handleErrors next c = (Done tt, c')
     ∧ status c' = code
     ∧ (status c' = 404%Z → body c' = Rendered "404-not-found" err')
     ∧ (status c' ≠ 404%Z → body c' = Rendered "500-internal-server-error" err')
     ∧ (err_message err' =
          if bool_decide (status c' = 404%Z ∧ err_message err = Some "Not Found")
          then None else err_message err)
     ∧ (err_stack err' = if String.eqb env "production" then None else err_stack err)
     ∧ err_status err' = err_status err
     ∧ last (log_error c') = Some err')
  ∧ (valid_status codes code = false →
     ∃ e, handleErrors next c = (Throws e, c1)).
Proof.
  intros Hnext code. split.
  - intros Hvalid.
    set (err1 := if String.eqb env "production" then delete_stack err else err).
    assert (err_message err1 = err_message err ∧ err_status err1 = err_status err
            ∧ err_stack err1
              = if String.eqb env "production" then None else err_stack err)
      as (Hm & Hs & Hk).
    { unfold err1. by destruct (String.eqb env "production"). }
    eexists _, (if (status_or_500 err =? 404)%Z then personalise err1 else err1).
    split; [by apply handleErrors_catch|]. simpl.
    split; [done|]. rewrite capped_last. fold err1.
    destruct (status_or_500 err =? 404)%Z eqn:Hcode.
    + apply Z.eqb_eq in Hcode.
      rewrite personalise_message, personalise_stack, personalise_status, Hm, Hs, Hk.
      split_and!; try done.
      apply if_bool_decide_ext. tauto.
    + apply Z.eqb_neq in Hcode.
      rewrite bool_decide_eq_false_2 by tauto.
      by rewrite Hm, Hs, Hk.
  - intros Hvalid. eexists. by apply handleErrors_reject.
Qed.

End Errors.

(** *** The order of the middleware *)

Section App.

Variable codes : StatusCodes.
Variable env : string.
Variable public : string → option string.
Variable handlebars flash lusca routes : Middleware.

Local Abbreviation handleErrors := (handleErrors codes env).
Local Abbreviation app := (app codes env public handlebars flash lusca routes).
Local Abbreviation served := (served public).

Lemma serve_passes (next : M Ctx unit) (c : Ctx) :
  served c = false → serve public next c = next c.
Proof.
  unfold Www.served, serve. destruct (String.eqb (method c) "GET" || _); [|done].
  simpl. destruct (public (path c)); [|done].
  by rewrite bool_decide_eq_true_2 by eauto.
Qed.

(** The line [logAccess] writes when the rest of the stack returns. *)
Lemma logAccess_done (next : M Ctx unit) (c c1 : Ctx) :
  next c = (Done tt, c1) →
  logAccess next c
  = (Done tt,
     {| method := method c1; host := host c1; path := path c1;
        request_body := request_body c1; status := status c1; body := body c1;
        state_domain := state_domain c1; clock := clock c1;
        log_access := capped 1000 (log_access c1)
                        {| acc_method := method c1; acc_host := host c1;
                           acc_path := path c1; acc_status := status c1;
                           acc_ms := clock c1 - clock c |};
        log_error := log_error c1 |}).
Proof.
  intros Hnext. unfold logAccess, bindM, read, Log_access, modify.
  by rewrite Hnext.
Qed.

(** [logAccess] writes nothing when the rest of the stack throws. *)
Lemma logAccess_throws (next : M Ctx unit) (c c1 : Ctx) (e : Error) :
  next c = (Throws e, c1) → logAccess next c = (Throws e, c1).
Proof.
  intros Hnext. unfold logAccess, bindM, read. by rewrite Hnext.
Qed.

(** The stack below the error handler, and its last part. *)
Local Abbreviation routing := (ctxAddDomain (routes (notFound (ret tt)))).
Local Abbreviation handled := (cleanPost (flash (lusca routing))).

(** C7: the middleware is used in the order static file serving, request
    logging, templating, error handling, body cleanup, flash messages,
    security headers, routing (the stage that adds the domain sits before
    the router and the final 404 after it), and each stage is where that
    order puts it. A GET or HEAD request for a static file is answered by
    the first stage: no later stage runs and nothing is logged. Every
    other request goes through the logger, which adds a line with the
    final status and the time taken when the stages after it return, and
    passes their exception on, without a line, when they throw (the
    templating stage is not under the error handler). The error handler
    leaves a result of the stages after it as it is, and every exception
    from them reaches its [catch] block: the page of the error is
    rendered and the error logged, or, for an error whose status is no
    status code, the assertion error of Koa's setter takes its place. The
    stages after the cleanup see the cleaned body, the router sees the
    domain, and what the router passes on ends as a 404 error. *)
Theorem middleware_order :
  app = serve public (logAccess (handlebars (handleErrors handled)))
  ∧ (∀ c content,
       method c = "GET" ∨ method c = "HEAD" →
       public (path c) = Some content →
       app c = (Done tt, set_body (File content) (set_status 200 c))
       ∧ log_access (app c).2 = log_access c
       ∧ log_error (app c).2 = log_error c)
  ∧ (∀ c c1,
       served c = false →
       handlebars (handleErrors handled) c = (Done tt, c1) →
       (app c).1 = Done tt
       ∧ log_error (app c).2 = log_error c1
       ∧ log_access (app c).2
         = capped 1000 (log_access c1)
             {| acc_method := method c1; acc_host := host c1;
                acc_path := path c1; acc_status := status c1;
                acc_ms := clock c1 - clock c |})
  ∧ (∀ c c1 e,
       served c = false →
       handlebars (handleErrors handled) c = (Throws e, c1) →
       app c = (Throws e, c1))
  ∧ (∀ c c1, handled c = (Done tt, c1) → handleErrors handled c = (Done tt, c1))
  ∧ (∀ c c1 err,
       handled c = (Throws err, c1) →
       (valid_status codes (status_or_500 err) = true →
        ∃ c' err',
          handleErrors handled c = (Done tt, c')
          ∧ status c' = status_or_500 err
          ∧ body c' = Rendered (if (status c' =? 404)%Z then "404-not-found"
                                else "500-internal-server-error") err'
          ∧ log_error c' = capped 1000 (log_error c1) err'
          ∧ log_access c' = log_access c1)
       ∧ (valid_status codes (status_or_500 err) = false →
          ∃ e, handleErrors handled c = (Throws e, c1) ∧ e ≠ err))
  ∧ (∀ c o o',
       request_body c = VObj o → cleaned o = Done o' →
       handled c = flash (lusca routing) (set_request_body (VObj o') c))
  ∧ (∀ c,
       routing c
       = routes (notFound (ret tt))
           (set_domain (JsString.replace "www." EmptyString (host c)) c))
  ∧ (∀ c, notFound (ret tt) c = (Throws http_404, c)).
Proof.
  split_and!.
  - reflexivity.
  - intros c content Hm Hfile.
    assert (app c = (Done tt, set_body (File content) (set_status 200 c))) as ->.
    { unfold Www.app, stack. simpl. unfold serve at 1. rewrite Hfile.
      by destruct Hm as [-> | ->]. }
    done.
  - intros c c1 Hserved Hrest.
    assert (app c = logAccess (handlebars (handleErrors handled)) c) as ->.
    { unfold Www.app, stack. simpl. by rewrite serve_passes. }
    by rewrite (logAccess_done _ c c1 Hrest).
  - intros c c1 e Hserved Hrest.
    assert (app c = logAccess (handlebars (handleErrors handled)) c) as ->.
    { unfold Www.app, stack. simpl. by rewrite serve_passes. }
    by apply logAccess_throws.
  - intros c c1. apply handleErrors_pass.
  - intros c c1 err Hthrown. split.
    + intros Hvalid. eexists _, _.
      split; [by apply handleErrors_catch|]. done.
    + intros Hvalid. eexists.
      split; [by apply handleErrors_reject|].
      intros Heq. rewrite <- Heq in Hvalid.
      unfold status_or_500 in Hvalid. simpl in Hvalid.
      by rewrite valid_500 in Hvalid.
  - intros c o o' Hbody Hcleaned. by rewrite cleanPost_cases, Hbody, Hcleaned.
  - done.
  - done.
Qed.

End App.

(** C3, as stated, fails: an error whose status is 0 is answered with
    status 500; and for an error whose status, 42, is no status code, the
    handler throws, renders no page and logs nothing. *)
Lemma handleErrors_other_status :
  (let err := {| err_status := Some 0%Z; err_message := Some "broken";
                 err_stack := Some "Error: broken" |} in
   let c := WwwSample.request "GET" "/broken" VUndef in
   let c' := (handleErrors WwwSample.codes "development"
                (WwwSample.routes (ret tt)) c).2 in
   WwwSample.routes (ret tt) c = (Throws err, c)
   ∧ status c' = 500%Z
   ∧ Some (status c') ≠ err_status err)
  ∧ (let err := {| err_status := Some 42%Z; err_message := Some "answer";
                   err_stack := Some "Error: answer" |} in
     let c := WwwSample.request "GET" "/answer" VUndef in
     WwwSample.routes (ret tt) c = (Throws err, c)
     ∧ handleErrors WwwSample.codes "development" (WwwSample.routes (ret tt)) c
       = (Throws (AssertionError "invalid status code: 42"), c)
     ∧ body c = Blank ∧ log_error c = []).
Proof. split; by vm_compute. Qed.

(** The final 404 of the stack, in production. *)
Lemma errors_rendered_witness :
  let c := WwwSample.request "GET" "/nowhere" VUndef in
  notFound (ret tt) c = (Throws http_404, c)
  ∧ valid_status WwwSample.codes 404 = true
  ∧ ∃ c' err',
      handleErrors WwwSample.codes "production" (notFound (ret tt)) c = (Done tt, c')
      ∧ status c' = 404%Z
      ∧ (status c' = 404%Z → body c' = Rendered "404-not-found" err')
      ∧ err_message err' = None
      ∧ err_stack err' = None
      ∧ last (log_error c') = Some err'.
Proof.
  intros c. split; [reflexivity|]. split; [reflexivity|].
  destruct (errors_rendered WwwSample.codes "production" (notFound (ret tt)) c c
              http_404) as [H _]; [reflexivity|].
  destruct H as (c' & err' & H1 & H2 & H3 & _ & H5 & H6 & _ & H8); [reflexivity|].
  exists c', err'. split; [exact H1|]. split; [exact H2|]. split; [exact H3|].
  split; [|split; [exact H6 | exact H8]].
  rewrite H5, H2. reflexivity.
Defined.

(** A style sheet is served without a line in the access log, and a
    handler that fails is answered with the page of the error and
    logged. *)
Lemma middleware_order_witness :
  let c := WwwSample.request "GET" "/css/base.css" VUndef in
  let c0 := WwwSample.request "GET" "/broken" VUndef in
  (method c = "GET" ∨ method c = "HEAD")
  ∧ WwwSample.public (path c) = Some "body { margin: 0 }"
  ∧ WwwSample.app "development" c
    = (Done tt, set_body (File "body { margin: 0 }") (set_status 200 c))
  ∧ log_access (WwwSample.app "development" c).2 = log_access c
  ∧ served WwwSample.public c0 = false
  ∧ (WwwSample.app "development" c0).1 = Done tt
  ∧ log_access (WwwSample.app "development" c0).2
    = [ {| acc_method := "GET"; acc_host := "www.example.com";
           acc_path := "/broken"; acc_status := 500; acc_ms := 0 |} ].
Proof.
  intros c c0. split; [left; reflexivity|]. split; [reflexivity|].
  destruct (middleware_order WwwSample.codes "development" WwwSample.public
              WwwSample.pass WwwSample.pass WwwSample.pass WwwSample.routes)
    as (_ & Hstatic & Hlogged & _).
  destruct (Hstatic c "body { margin: 0 }") as (H1 & H2 & _);
    [left; reflexivity | reflexivity |].
  split; [exact H1|]. split; [exact H2|]. split; [reflexivity|].
  destruct (Hlogged c0
              (handleErrors WwwSample.codes "development"
                 (cleanPost (WwwSample.pass (WwwSample.pass
                    (ctxAddDomain (WwwSample.routes (notFound (ret tt)))))))
                 c0).2) as (H3 & _ & H4); [reflexivity | reflexivity |].
  split; [exact H3 | exact H4].
Defined.

End WwwApp.

(* ================================================================== *)
(** ** app-admin/handlers/dev.js *)
(* ================================================================== *)

Module DevLogs.
Import Dev.

Example all_entries :
  shown <$> DevSample.logAccess {| from := None; to := None; app := None; time := None |}
  = Done [DevSample.www_visit; DevSample.admin_visit; DevSample.api_visit].
Proof. vm_compute. reflexivity. Qed.

Example one_day :
  shown <$> DevSample.logAccess
              {| from := Some "d100"; to := Some "d100"; app := None; time := None |}
  = Done [DevSample.admin_visit].
Proof. vm_compute. reflexivity. Qed.

Example slow_www :
  shown <$> DevSample.logAccess
              {| from := None; to := None; app := Some "www"; time := Some "100" |}
  = Done [DevSample.www_visit].
Proof. vm_compute. reflexivity. Qed.

Example www_display :
  entries <$> DevSample.logAccess
                {| from := None; to := None; app := Some "www"; time := Some "100" |}
  = Done [ {| entry := DevSample.www_visit; d_time := "d101"; d_path := "/about?…";
              d_qs := Some "x=1"; d_os := "Linux"; d_ua := "Firefox-52";
              d_speed := Some "medium" |} ].
Proof. vm_compute. reflexivity. Qed.

(** The expression of a plain parameter tests for a prefix. *)
Lemma atoms_plain app0 :
  plain app0 = true →
  atoms app0 = Some (Lit <$> String.list_ascii_of_string app0).
Proof.
  unfold plain. induction app0 as [|c app0 IH]; simpl; [done|].
  intros [Hc Hrest]%andb_prop. apply negb_true_iff in Hc.
  destruct (Ascii.eqb c ".") eqn:Hdot.
  - apply Ascii.eqb_eq in Hdot as ->. by vm_compute in Hc.
  - rewrite Hc, (IH Hrest). done.
Qed.

Lemma matches_prefix_literal app0 s :
  matches_prefix (Lit <$> String.list_ascii_of_string app0) s
  = JsString.starts_with app0 s.
Proof.
  revert s. induction app0 as [|c app0 IH]; intros s; simpl; [done|].
  destruct s as [|b s]; [done|]. simpl. by rewrite IH.
Qed.

Lemma elem_of_filter_bool (p : Entry → bool) l e :
  e ∈ List.filter p l ↔ e ∈ l ∧ p e = true.
Proof. rewrite !list_elem_of_In. apply filter_In. Qed.

(** A filter that does not throw keeps what passes its test. *)
Lemma filterM_done p l r :
  filterM p l = Done r → ∀ e, e ∈ r ↔ e ∈ l ∧ p e = Done true.
Proof.
  revert r. induction l as [|x l IH]; intros r; simpl.
  - intros [= <-] e. split; [by intros ?%elem_of_nil | by intros [?%elem_of_nil _]].
  - intros (b & Hb & (r' & Hr' & [= <-])%bind_done)%bind_done e.
    specialize (IH r' Hr' e).
    destruct b; rewrite ?elem_of_cons, IH, ?elem_of_cons; split.
    + intros [-> | [? ?]]; auto.
    + intros [[-> | ?] ?]; auto.
    + intros [? ?]; auto.
    + intros [[-> | ?] Hp]; [congruence | auto].
Qed.

(** A filter whose test does not throw does not throw. *)
Lemma filterM_total p l :
  (∀ e, ∃ b, p e = Done b) → ∃ r, filterM p l = Done r.
Proof.
  intros Hp. induction l as [|x l [r IH]]; simpl; [by eexists|].
  destruct (Hp x) as [b ->]. simpl. rewrite IH. simpl. by eexists.
Qed.

Lemma on_or_after_true t d :
  on_or_after t d = true ↔ ∃ t0, d = Some t0 ∧ (t0 ≤ t)%Z.
Proof.
  unfold on_or_after. destruct d as [t0|].
  - rewrite Z.leb_le. split; [by exists t0 | by intros (? & [= <-] & ?)].
  - split; [done | by intros (? & ? & ?)].
Qed.

Lemma on_or_before_true (addDay : Z → Z) t d :
  on_or_before t (addDay <$> d) = true ↔ ∃ t0, d = Some t0 ∧ (t ≤ addDay t0)%Z.
Proof.
  unfold on_or_before. destruct d as [t0|]; simpl.
  - rewrite Z.leb_le. split; [by exists t0 | by intros (? & [= <-] & ?)].
  - split; [done | by intros (? & ? & ?)].
Qed.

Section Viewers.

Variable engine : string → string → outcome bool.
Variable ToNumber : string → option Qc.
Variable dateFormat : Z → string → string.
Variable Date_parse : string → option Z.
Variable addDay : Z → Z.
Variable monthBefore : Z → Z.

Local Abbreviation RegExp_test := (RegExp_test engine).
Local Abbreviation defaults := (defaults dateFormat monthBefore).
Local Abbreviation within_dates := (within_dates Date_parse addDay).
Local Abbreviation from_test := (from_test Date_parse).
Local Abbreviation to_test := (to_test Date_parse addDay).
Local Abbreviation logAccess :=
  (logAccess engine ToNumber dateFormat Date_parse addDay monthBefore).
Local Abbreviation logError :=
  (logError ToNumber dateFormat Date_parse addDay monthBefore).

Lemma shown_annotate speed (l : list Entry) :
  entry <$> (annotate ToNumber dateFormat speed <$> l) = l.
Proof. induction l as [|e l IH]; [done|]. rewrite !fmap_cons. by f_equal. Qed.

Hypothesis dateFormat_nonempty : ∀ t mask, dateFormat t mask ≠ EmptyString.

Lemma or_default_truthy o d : d ≠ EmptyString → JsString.truthy (or_default o d) = true.
Proof.
  intros Hd. unfold or_default. destruct o as [s|].
  - destruct (JsString.truthy s) eqn:Hs; [done|]. by apply JsStringFacts.truthy_true.
  - by apply JsStringFacts.truthy_true.
Qed.

Lemma date_tests now entriesAll query0 e :
  let query := defaults now entriesAll query0 in
  from_test query e = true ∧ to_test query e = true ↔ within_dates query e.
Proof.
  intros query. unfold Dev.from_test, Dev.to_test, Dev.within_dates, toFilter.
  unfold query, Dev.defaults. simpl.
  rewrite !or_default_truthy by done.
  by rewrite on_or_after_true, on_or_before_true.
Qed.

Lemma app_test_true query e :
  app_test engine query e = Done true ↔
  (given (app query) = true →
   RegExp_test (default EmptyString (app query)) (host e) = Done true).
Proof.
  unfold app_test. destruct (given (app query)); split; auto. by intros _.
Qed.

Lemma time_test_true query e :
  time_test ToNumber query e = true ↔
  (given (time query) = true →
   ∃ q, ToNumber (default EmptyString (time query)) = Some q
        ∧ (q < Q2Qc (inject_Z (ms e)))%Qc).
Proof.
  unfold time_test, slower. destruct (given (time query)).
  - destruct (ToNumber _) as [q|].
    + rewrite bool_decide_eq_true. split.
      * intros H _. by exists q.
      * intros H. by destruct (H eq_refl) as (? & [= <-] & ?).
    + split; [done|]. intros H. by destruct (H eq_refl) as (? & ? & ?).
  - split; auto. by intros _.
Qed.

Lemma RegExp_test_plain app0 s :
  plain app0 = true → RegExp_test app0 s = Done (JsString.starts_with app0 s).
Proof.
  intros Hplain. unfold Dev.RegExp_test.
  by rewrite (atoms_plain _ Hplain), matches_prefix_literal.
Qed.

Lemma logAccess_total now entriesAll query0 :
  (∀ e, ∃ b, app_test engine (defaults now entriesAll query0) e = Done b) →
  ∃ context, logAccess now entriesAll query0 = Done context.
Proof.
  intros Htest. unfold Dev.logAccess.
  destruct (filterM_total _
              (List.filter (to_test (defaults now entriesAll query0))
                 (List.filter (from_test (defaults now entriesAll query0)) entriesAll))
              Htest) as [hosted ->].
  simpl. by eexists.
Qed.


End Viewers.



End DevLogs.

(* ================================================================== *)
(** ** app-api: status codes of the member endpoints *)
(* ================================================================== *)

Module ApiStatus.
Import Api.

Example post_member :
  (api ApiSample.db (ApiSample.request POST Members)).2
  = {| status := 201; Location := Some "/members/2";
       body := One {| MemberId := 2; Firstname := "Test"; Lastname := "User";
                      Email := "test@user.com"; Active := true |} |}.
Proof. vm_compute. reflexivity. Qed.

Example post_member_twice :
  let db' := (api ApiSample.db (ApiSample.request POST Members)).1 in
  (api db' (ApiSample.request POST Members)).2
  = {| status := 409; Location := None;
       body := Message "Duplicate entry 'test@user.com' for key 'Email'" |}.
Proof. vm_compute. reflexivity. Qed.

Example get_deleted :
  let db' := (api ApiSample.db (ApiSample.request DELETE (MemberAt 1))).1 in
  status (api db' (ApiSample.request GET (MemberAt 1))).2 = 404%Z.
Proof. vm_compute. reflexivity. Qed.

Example no_credentials :
  status (api ApiSample.db
            {| method := GET; resource := NoResource "/zzzzzz"; credentials := None;
               filter := None; values := ApiSample.test_user |}).2 = 401%Z.
Proof. vm_compute. reflexivity. Qed.

Lemma member_listed db id m : members db !! id = Some m → m ∈ all_members db.
Proof.
  intros Hm. unfold all_members. apply list_elem_of_fmap.
  exists (id, m). split; [done|]. by apply elem_of_map_to_list.
Qed.

Lemma email_taken_new db email :
  (∀ id m, members db !! id = Some m → Email m ≠ email) →
  email_taken db None email = false.
Proof.
  intros Hfree. unfold email_taken. apply bool_decide_eq_false.
  intros (m & Hin & Hemail & _)%Exists_exists.
  unfold all_members in Hin. apply list_elem_of_fmap in Hin as ([id m'] & -> & Hin).
  apply elem_of_map_to_list in Hin. by eapply Hfree.
Qed.

Lemma email_taken_existing db id m :
  members db !! id = Some m → email_taken db None (Email m) = true.
Proof.
  intros Hm. unfold email_taken. apply bool_decide_eq_true.
  apply Exists_exists. exists m. eauto using member_listed.
Qed.

(** C5: without valid Basic-auth credentials every request is answered
    401, whatever the resource; with them, reading, updating and deleting
    an existing member answer 200, a list answers 200 and a filtered list
    without a match 204, creating a member answers 201 with the Location
    /members/ followed by the new id, or 409 when the Email is that of an
    existing member, and a missing member and a path that is no resource
    answer 404. *)
Theorem member_status_codes (db : Db) (req : Request) :
  (authenticated db req = false → api db req = (db, answer 401 Empty))
  ∧ (authenticated db req = true →
     (∀ id m, resource req = MemberAt id → members db !! id = Some m →
        (method req = GET → api db req = (db, answer 200 (One m)))
        ∧ (method req = DELETE →
           (api db req).2 = answer 200 (One m)
           ∧ members (api db req).1 !! id = None)
        ∧ (method req = PATCH →
           email_taken db (Some id) (v_Email (values req)) = false →
           (api db req).2 = answer 200 (One (member_of id (values req)))
           ∧ members (api db req).1 !! id = Some (member_of id (values req))))
     ∧ (resource req = Members → method req = GET →
        (∀ p, filter req = Some p → List.filter p (all_members db) = [] →
              api db req = (db, answer 204 Empty))
        ∧ (∀ p, filter req = Some p → List.filter p (all_members db) ≠ [] →
                api db req = (db, answer 200 (Many (List.filter p (all_members db)))))
        ∧ (filter req = None → api db req = (db, answer 200 (Many (all_members db)))))
     ∧ (resource req = Members → method req = POST →
        ((∀ id m, members db !! id = Some m → Email m ≠ v_Email (values req)) →
         (api db req).2
         = {| status := 201;
              Location := Some ("/members/" +:+ pretty (next_id db));
              body := One (member_of (next_id db) (values req)) |}
         ∧ members (api db req).1 !! next_id db
           = Some (member_of (next_id db) (values req)))
        ∧ (∀ id m, members db !! id = Some m → Email m = v_Email (values req) →
             status (api db req).2 = 409%Z ∧ (api db req).1 = db))
     ∧ (∀ id, resource req = MemberAt id → members db !! id = None →
          status (api db req).2 = 404%Z ∧ (api db req).1 = db)
     ∧ (∀ path, resource req = NoResource path →
          status (api db req).2 = 404%Z ∧ (api db req).1 = db)).
Proof.
  unfold api. split; [by intros ->|]. intros ->. split_and!.
  - intros id m Hres Hm. unfold route. rewrite Hres, Hm. split_and!.
    + by intros ->.
    + intros ->. simpl. by rewrite lookup_delete_eq.
    + intros -> ->. simpl. by rewrite lookup_insert_eq.
  - intros Hres Hget. unfold route. rewrite Hres, Hget. split_and!.
    + by intros p -> ->.
    + intros p -> Hp. by destruct (List.filter p (all_members db)).
    + by intros ->.
  - intros Hres Hpost. unfold route. rewrite Hres, Hpost. split.
    + intros Hfree. rewrite email_taken_new by done. simpl.
      by rewrite lookup_insert_eq.
    + intros id m Hm <-. by rewrite (email_taken_existing db id m).
  - intros id Hres Hm. unfold route. rewrite Hres, Hm. by destruct (method req).
  - intros path Hres. unfold route. rewrite Hres. by destruct (method req).
Qed.

(** The first member created on the sample tables gets id 2. *)
Lemma member_status_codes_witness :
  let req := ApiSample.request POST Members in
  authenticated ApiSample.db req = true
  ∧ resource req = Members ∧ method req = POST
  ∧ (∀ id m, members ApiSample.db !! id = Some m → Email m ≠ v_Email (values req))
  ∧ (api ApiSample.db req).2
    = {| status := 201; Location := Some "/members/2";
         body := One (member_of 2 ApiSample.test_user) |}.
Proof.
  intros req.
  assert (∀ id m, members ApiSample.db !! id = Some m → Email m ≠ v_Email (values req))
    as Hfree.
  { intros id m Hm. unfold ApiSample.db in Hm. simpl in Hm.
    apply lookup_singleton_Some in Hm as [_ <-]. discriminate. }
  split; [reflexivity|]. split; [reflexivity|]. split; [reflexivity|].
  split; [exact Hfree|].
  destruct (member_status_codes ApiSample.db req) as [_ H].
  destruct (H eq_refl) as (_ & _ & Hpost & _).
  destruct (Hpost eq_refl eq_refl) as [Hcreate _].
  destruct (Hcreate Hfree) as [Hresp _]. exact Hresp.
Defined.

End ApiStatus.

(* ================================================================== *)
(** * Further properties of the handlers *)
(* ================================================================== *)

(** ** app-admin/routes-ajax.js: renewal, answers and failures *)

Module AjaxAnswers.
Import Ajax.

Section Relay.

Context {Store Json : Type}.
Variable User_update : Store → Z → string → Store.
Variable User_get : Store → Z → option User.
Variable Date_parse : string → option Z.
Variable toISOString : Z → string.
Variable sha1_hex : string → string.
Variable JSON_stringify : Json → string.
Variable fetch : Outgoing → M Store (Response Json).

Local Abbreviation St := (State Store Json).
Local Abbreviation expired := (expired Date_parse).
Local Abbreviation renew := (renew User_update User_get Date_parse toISOString).
Local Abbreviation outgoing := (outgoing (Store:=Store) sha1_hex JSON_stringify).
Local Abbreviation forward := (forward sha1_hex JSON_stringify fetch).
Local Abbreviation getAjax :=
  (getAjax User_update User_get Date_parse toISOString sha1_hex JSON_stringify fetch).

(** A token that has just been renewed is not renewed again by a request
    that arrives within a day of it: the second renewal step changes
    nothing. *)
Theorem renewed_token_is_kept (now today now' today' : Z) (s : St) (usr usr' : User) :
  user s = Some usr →
  expired usr now = true →
  User_get (User_update (db s) (UserId usr) (toISOString today)) (UserId usr)
    = Some usr' →
  ApiToken usr' = Some (toISOString today) →
  Date_parse (toISOString today) = Some today →
  (now' - today ≤ 86400000)%Z →
  renew now' today' (renew now today s).2 = (Done tt, (renew now today s).2).
Proof.
  intros Hu Hexp Hget Htok Hparse Hfresh.
  assert (renew now today s
          = (Done tt, {| db := User_update (db s) (UserId usr) (toISOString today);
                         user := Some usr'; status := status s; body := body s |}))
    as ->.
  { unfold Ajax.renew, bindM, the_user, modify. rewrite Hu, Hexp. simpl.
    by rewrite Hget. }
  unfold Ajax.renew, bindM, the_user. simpl.
  unfold Ajax.expired. rewrite Htok, Hparse.
  by replace (1000 * 60 * 60 * 24 <? now' - today)%Z with false
    by (symmetry; apply Z.ltb_ge; lia).
Qed.

(** When the API answers, the relay passes its status on, with the parsed
    JSON as body for a content type that mentions application/json and the
    text of the answer otherwise; the database is the one the API left. *)
Theorem answer_passed_on (resource : string) (inc : Incoming Json) (s : St)
    (req : Outgoing) (response : Response Json) (d : Store) (ct : string) :
  outgoing resource inc s = (Done req, s) →
  fetch req (db s) = (Done response, d) →
  content_type response = Some ct →
  (∀ j, JsString.contains "application/json" ct = true →
        resp_json response = Done j →
        forward resource inc s
        = (Done tt, {| db := d; user := user s;
                       status := resp_status response; body := Data j |}))
  ∧ (∀ t, JsString.contains "application/json" ct = false →
          resp_text response = Done t →
          forward resource inc s
          = (Done tt, {| db := d; user := user s;
                         status := resp_status response; body := Text t |})).
Proof.
  intros Hout Hfetch Hct.
  assert (∀ b, JsString.contains "application/json" ct = b →
    forward resource inc s
    = try_catch
        (set_status (resp_status response) ;;
         if b then (j ← lift (resp_json response) ; set_body (Data j))
         else (t ← lift (resp_text response) ; set_body (Text t)))
        failed {| db := d; user := user s; status := status s; body := body s |})
    as Hfwd.
  { intros b Hb. unfold Ajax.forward, bindM at 1. rewrite Hout.
    unfold try_catch, Ajax.relay, bindM at 1, call. rewrite Hfetch.
    unfold respond, bindM at 1, ret. by rewrite Hct, Hb. }
  split.
  - intros j Hb Hj. rewrite (Hfwd true Hb).
    unfold try_catch, bindM, set_status, set_body, modify, lift. by rewrite Hj.
  - intros t Hb Ht. rewrite (Hfwd false Hb).
    unfold try_catch, bindM, set_status, set_body, modify, lift. by rewrite Ht.
Qed.

(** An answer of the API that the relay cannot read is turned into a 500:
    an answer without a content type, and an answer announced as JSON whose
    body does not parse. The status of the API is not kept. *)
Theorem unreadable_answer_is_500 (resource : string) (inc : Incoming Json) (s : St)
    (req : Outgoing) (response : Response Json) (d : Store) :
  outgoing resource inc s = (Done req, s) →
  fetch req (db s) = (Done response, d) →
  (content_type response = None →
   ∃ m, forward resource inc s
        = (Done tt, {| db := d; user := user s; status := 500; body := Text m |}))
  ∧ (∀ ct e, content_type response = Some ct →
             JsString.contains "application/json" ct = true →
             resp_json response = Throws e →
             forward resource inc s
             = (Done tt, {| db := d; user := user s; status := 500;
                            body := match err_message e with
                                    | Some m => Text m
                                    | None => Unset
                                    end |})).
Proof.
  intros Hout Hfetch. split.
  - intros Hct. eexists. unfold Ajax.forward, bindM at 1. rewrite Hout.
    unfold try_catch, Ajax.relay, bindM at 1, call. rewrite Hfetch.
    unfold respond, bindM at 1. rewrite Hct. reflexivity.
  - intros ct e Hct Hjson He. unfold Ajax.forward, bindM at 1. rewrite Hout.
    unfold try_catch, Ajax.relay, bindM at 1, call. rewrite Hfetch.
    unfold respond, bindM at 1, ret. rewrite Hct, Hjson.
    unfold bindM, set_status, set_body, modify, lift. by rewrite He.
Qed.

(** What fails before the [try] block is thrown by the handler itself: when
    the row of the user cannot be read back after the renewal, the token
    has been written, nothing is forwarded and no answer is set. *)
Theorem lost_user_is_thrown (resource : string) (now today : Z)
    (inc : Incoming Json) (s : St) (usr : User) :
  user s = Some usr →
  expired usr now = true →
  User_get (User_update (db s) (UserId usr) (toISOString today)) (UserId usr) = None →
  ∃ e, getAjax resource now today inc s
       = (Throws e, {| db := User_update (db s) (UserId usr) (toISOString today);
                       user := None; status := status s; body := body s |}).
Proof.
  intros Hu Hexp Hget. eexists.
  unfold Ajax.getAjax, bindM at 1.
  assert (renew now today s
          = (Done tt, {| db := User_update (db s) (UserId usr) (toISOString today);
                         user := None; status := status s; body := body s |}))
    as ->.
  { unfold Ajax.renew, bindM, the_user, modify. rewrite Hu, Hexp. simpl.
    by rewrite Hget. }
  unfold Ajax.forward, bindM at 1, Ajax.outgoing, bindM at 1, the_user. simpl.
  reflexivity.
Qed.

(** Nothing is sent to the API for a session without a user or without a
    token: the handler throws before the request is made, and the state is
    as it was. *)
Theorem no_request_without_token (resource : string) (inc : Incoming Json) (s : St) :
  user s = None ∨ (∃ usr, user s = Some usr ∧ ApiToken usr = None) →
  ∃ e, forward resource inc s = (Throws e, s).
Proof.
  intros [Hu|(usr & Hu & Htok)]; eexists;
    unfold Ajax.forward, bindM at 1, Ajax.outgoing, bindM at 1, the_user;
    rewrite Hu; [|rewrite Htok]; reflexivity.
Qed.

(** A request to a host without "admin" in its name is forwarded to that
    same host. *)
Theorem forwarded_to_same_host (resource : string) (inc : Incoming Json) (s : St)
    (req : Outgoing) :
  JsString.contains "admin" (host inc) = false →
  outgoing resource inc s = (Done req, s) →
  url req = protocol inc +:+ "://" +:+ host inc +:+ "/" +:+ resource.
Proof.
  intros Hhost. unfold Ajax.outgoing, bindM, the_user.
  rewrite (AjaxRelay.replace_absent _ _ _ Hhost).
  destruct (user s) as [usr|]; [|done].
  destruct (ApiToken usr); [|done]. by intros [= <-].
Qed.

End Relay.

(** The token written at 86401002 is kept by a request five seconds
    later. *)
Lemma renewed_token_is_kept_witness :
  let s := AjaxSample.state 7 in
  let once := (renew AjaxSample.User_update AjaxSample.User_get
                 AjaxSample.Date_parse AjaxSample.toISOString
                 86401001 86401002 s).2 in
  user once = Some {| UserId := 7; ApiToken := Some "86401002" |}
  ∧ renew AjaxSample.User_update AjaxSample.User_get AjaxSample.Date_parse
      AjaxSample.toISOString 86406002 86406003 once
    = (Done tt, once).
Proof.
  intros s once. split; [reflexivity|].
  apply (renewed_token_is_kept AjaxSample.User_update AjaxSample.User_get
           AjaxSample.Date_parse AjaxSample.toISOString
           86401001 86401002 86406002 86406003 s
           {| UserId := 7; ApiToken := Some "1000" |}
           {| UserId := 7; ApiToken := Some "86401002" |});
    [reflexivity..|lia].
Defined.

(** The JSON document of the sample API reaches the browser. *)
Lemma answer_passed_on_witness :
  let s := AjaxSample.state 7 in
  let inc := AjaxSample.incoming "admin.localhost" in
  forward AjaxSample.sha1_hex (λ j : string, j) AjaxSample.fetch
    "members/123456" inc s
  = (Done tt, {| db := AjaxSample.users; user := user s; status := 200;
                 body := Data "[1,2]" |}).
Proof.
  intros s inc.
  destruct (answer_passed_on AjaxSample.sha1_hex (λ j : string, j) AjaxSample.fetch
              "members/123456" inc s
              {| url := "http://api.localhost/members/123456";
                 out_method := "GET"; out_body := EmptyString;
                 ContentType := "application/json";
                 Accept := Some "application/json";
                 Authorization := "Basic Nzo1aGExMTAwMA==" |}
              {| resp_status := 200;
                 content_type := Some "application/json; charset=utf-8";
                 resp_json := Done "[1,2]"; resp_text := Done "[1,2]" |}
              AjaxSample.users "application/json; charset=utf-8")
    as [H _]; [reflexivity..|].
  apply H; reflexivity.
Defined.

(** An answer without a content type. *)
Lemma unreadable_answer_is_500_witness :
  let s := AjaxSample.state 7 in
  let inc := AjaxSample.incoming "admin.localhost" in
  ∃ m, forward AjaxSample.sha1_hex (λ j : string, j) AjaxSample.silent
         "members/123456" inc s
       = (Done tt, {| db := AjaxSample.users; user := user s; status := 500;
                      body := Text m |}).
Proof.
  intros s inc.
  destruct (unreadable_answer_is_500 AjaxSample.sha1_hex (λ j : string, j)
              AjaxSample.silent "members/123456" inc s
              {| url := "http://api.localhost/members/123456";
                 out_method := "GET"; out_body := EmptyString;
                 ContentType := "application/json";
                 Accept := Some "application/json";
                 Authorization := "Basic Nzo1aGExMTAwMA==" |}
              {| resp_status := 204; content_type := None;
                 resp_json := Done EmptyString; resp_text := Done EmptyString |}
              AjaxSample.users)
    as [H _]; [reflexivity..|].
  apply H. reflexivity.
Defined.

(** A session user without a row in the table. *)
Lemma lost_user_is_thrown_witness :
  ∃ e, getAjax AjaxSample.User_update AjaxSample.User_get AjaxSample.Date_parse
         AjaxSample.toISOString AjaxSample.sha1_hex (λ j : string, j)
         AjaxSample.fetch "members" 5000 5000
         (AjaxSample.incoming "admin.localhost") AjaxSample.stranger
       = (Throws e, {| db := AjaxSample.User_update AjaxSample.users 9 "5000";
                       user := None; status := 404; body := Unset |}).
Proof.
  apply (lost_user_is_thrown AjaxSample.User_update AjaxSample.User_get
           AjaxSample.Date_parse AjaxSample.toISOString AjaxSample.sha1_hex
           (λ j : string, j) AjaxSample.fetch "members" 5000 5000
           (AjaxSample.incoming "admin.localhost") AjaxSample.stranger
           {| UserId := 9; ApiToken := None |}); reflexivity.
Defined.

Lemma no_request_without_token_witness :
  ∃ e, forward AjaxSample.sha1_hex (λ j : string, j) AjaxSample.fetch
         "members" (AjaxSample.incoming "admin.localhost") AjaxSample.stranger
       = (Throws e, AjaxSample.stranger).
Proof.
  apply (no_request_without_token AjaxSample.sha1_hex (λ j : string, j)
           AjaxSample.fetch "members" (AjaxSample.incoming "admin.localhost")
           AjaxSample.stranger).
  right. exists {| UserId := 9; ApiToken := None |}. split; reflexivity.
Defined.

(** A relay reached as localhost calls itself. *)
Lemma forwarded_to_same_host_witness :
  let s := AjaxSample.state 7 in
  let inc := AjaxSample.incoming "localhost" in
  ∃ req, outgoing (Store:=gmap Z User) AjaxSample.sha1_hex (λ j : string, j)
           "members" inc s = (Done req, s)
         ∧ url req = "http://localhost/members".
Proof.
  intros s inc. eexists. split; [reflexivity|].
  apply (forwarded_to_same_host (Store:=gmap Z User) AjaxSample.sha1_hex
           (λ j : string, j) "members" inc s); reflexivity.
Defined.

End AjaxAnswers.

(** ** app-admin/routes-ajax.js: the encoding of the credentials *)

Module AjaxBase64.
Import Ajax.

(** Induction over a string three characters at a time. *)
Lemma string_chunks_ind (P : string → Prop) :
  P EmptyString →
  (∀ a, P (String a EmptyString)) →
  (∀ a b, P (String a (String b EmptyString))) →
  (∀ a b c s, P s → P (String a (String b (String c s)))) →
  ∀ s, P s.
Proof.
  intros H0 H1 H2 H3 s.
  assert (P s ∧ (∀ a, P (String a s)) ∧ (∀ a b, P (String a (String b s))))
    as [? _]; [|done].
  induction s as [|c s (IH0 & IH1 & IH2)].
  - by split_and!.
  - split_and!; [apply IH1 | intros a; apply IH2 | intros a b; by apply H3].
Qed.

Lemma base64Encode_chunk a b c s :
  base64Encode (String a (String b (String c s)))
  = let n := Z.lor (Z.lor (Z.shiftl (byte a) 16) (Z.shiftl (byte b) 8)) (byte c) in
    String (sextet (Z.shiftr n 18)) (String (sextet (Z.shiftr n 12))
      (String (sextet (Z.shiftr n 6)) (String (sextet n) (base64Encode s)))).
Proof. reflexivity. Qed.

(** The encoding has four characters for every three bytes, the last group
    being padded. *)
Theorem base64Encode_length (str : string) :
  String.length (base64Encode str) = (4 * ((String.length str + 2) / 3))%nat.
Proof.
  induction str as [| | |a b c s IH] using string_chunks_ind; try reflexivity.
  rewrite base64Encode_chunk. cbn [String.length]. rewrite IH.
  replace (S (S (S (String.length s))) + 2)%nat
    with (1 * 3 + (String.length s + 2))%nat by lia.
  rewrite Nat.div_add_l by lia. lia.
Qed.

Lemma byte_range a : (0 ≤ byte a < 256)%Z.
Proof. unfold byte. pose proof (nat_ascii_bounded a). lia. Qed.

Lemma byte_inj a b : byte a = byte b → a = b.
Proof.
  unfold byte. intros H%Nat2Z.inj.
  by rewrite <- (ascii_nat_embedding a), <- (ascii_nat_embedding b), H.
Qed.

(** Bytes placed side by side with [lor] add up. *)
Lemma land_above x y k :
  (0 ≤ k)%Z → (0 ≤ y < 2 ^ k)%Z → Z.land (x * 2 ^ k) y = 0%Z.
Proof.
  intros Hk Hy. apply Z.bits_inj'. intros i Hi.
  rewrite Z.land_spec, Z.bits_0.
  destruct (decide (i < k)%Z) as [Hlt|Hge].
  - by rewrite Z.mul_pow2_bits_low.
  - destruct (decide (y = 0%Z)) as [->|Hy0].
    + by rewrite Z.bits_0, andb_false_r.
    + rewrite (Z.bits_above_log2 y i), andb_false_r; [done|lia|].
      assert (Z.log2 y < k)%Z by (apply Z.log2_lt_pow2; lia). lia.
Qed.

Lemma lor_shiftl_add x y k :
  (0 ≤ k)%Z → (0 ≤ y < 2 ^ k)%Z → Z.lor (Z.shiftl x k) y = (x * 2 ^ k + y)%Z.
Proof.
  intros Hk Hy. rewrite Z.shiftl_mul_pow2 by done.
  rewrite <- Z.lxor_lor, <- Z.add_nocarry_lxor; by try apply land_above.
Qed.

Lemma pack3 a b c :
  Z.lor (Z.lor (Z.shiftl (byte a) 16) (Z.shiftl (byte b) 8)) (byte c)
  = (byte a * 65536 + byte b * 256 + byte c)%Z.
Proof.
  pose proof (byte_range a). pose proof (byte_range b). pose proof (byte_range c).
  rewrite (lor_shiftl_add (byte a) _ 16);
    [|lia|rewrite Z.shiftl_mul_pow2 by lia; lia].
  rewrite (Z.shiftl_mul_pow2 (byte b)) by lia.
  replace (byte a * 2 ^ 16 + byte b * 2 ^ 8)%Z
    with (Z.shiftl (byte a * 256 + byte b) 8)
    by (rewrite Z.shiftl_mul_pow2; lia).
  rewrite lor_shiftl_add by lia. lia.
Qed.

Lemma pack2 a b :
  Z.lor (Z.shiftl (byte a) 16) (Z.shiftl (byte b) 8)
  = (byte a * 65536 + byte b * 256)%Z.
Proof.
  pose proof (pack3 a b "000"%char) as H. change (byte "000") with 0%Z in H.
  by rewrite Z.lor_0_r, Z.add_0_r in H.
Qed.

(** The index a sextet is looked up with. *)
Lemma land_63 n : Z.land n 63 = (n mod 64)%Z.
Proof. apply (Z.land_ones n 6). lia. Qed.

Lemma sextets_distinct :
  forallb (λ i, forallb (λ j,
    implb (Ascii.eqb (sextet i) (sextet j)) (i =? j)%Z) (seqZ 0 64)) (seqZ 0 64)
  = true.
Proof. vm_compute. reflexivity. Qed.

Lemma sextet_inj m n : sextet m = sextet n → (m mod 64 = n mod 64)%Z.
Proof.
  assert (∀ i j, (0 ≤ i < 64)%Z → (0 ≤ j < 64)%Z → sextet i = sextet j → i = j)
    as Hinj.
  { intros i j Hi Hj Heq. pose proof sextets_distinct as H.
    rewrite forallb_forall in H. specialize (H i).
    rewrite <- list_elem_of_In, elem_of_seqZ in H. specialize (H ltac:(lia)).
    rewrite forallb_forall in H. specialize (H j).
    rewrite <- list_elem_of_In, elem_of_seqZ in H. specialize (H ltac:(lia)).
    rewrite Heq, Ascii.eqb_refl in H. simpl in H. by apply Z.eqb_eq. }
  assert (∀ k, sextet k = sextet (k mod 64)) as Hmod.
  { intros k. unfold sextet. rewrite !land_63. by rewrite Z.mod_mod. }
  intros H. rewrite (Hmod m), (Hmod n) in H.
  apply Hinj in H; [done| |]; apply Z.mod_pos_bound; lia.
Qed.

Lemma sextet_not_pad n : sextet n ≠ "="%char.
Proof.
  assert (forallb (λ i, negb (Ascii.eqb (sextet i) "=")) (seqZ 0 64) = true) as H
    by (vm_compute; reflexivity).
  rewrite forallb_forall in H. specialize (H (n mod 64)%Z).
  rewrite <- list_elem_of_In, elem_of_seqZ in H.
  pose proof (Z.mod_pos_bound n 64). specialize (H ltac:(lia)).
  apply negb_true_iff, Ascii.eqb_neq in H.
  replace (sextet n) with (sextet (n mod 64)); [done|].
  unfold sextet. rewrite !land_63. by rewrite Z.mod_mod.
Qed.

(** A number below 2^24 is given by its four sextets. *)
Lemma sextets_give_number m n :
  (0 ≤ m < 16777216)%Z → (0 ≤ n < 16777216)%Z →
  sextet (Z.shiftr m 18) = sextet (Z.shiftr n 18) →
  sextet (Z.shiftr m 12) = sextet (Z.shiftr n 12) →
  sextet (Z.shiftr m 6) = sextet (Z.shiftr n 6) →
  sextet m = sextet n →
  m = n.
Proof.
  intros Hm Hn H18%sextet_inj H12%sextet_inj H6%sextet_inj H0%sextet_inj.
  rewrite !Z.shiftr_div_pow2 in * by lia.
  change (2 ^ 18)%Z with 262144%Z in *. change (2 ^ 12)%Z with 4096%Z in *.
  change (2 ^ 6)%Z with 64%Z in *.
  assert (m `div` 262144 = n `div` 262144)%Z as E18.
  { rewrite !Z.mod_small in H18; [done| |]; split;
      try (apply Z.div_pos; lia); apply Z.div_lt_upper_bound; lia. }
  assert (m `div` 4096 = n `div` 4096)%Z as E12.
  { rewrite (Z.div_mod (m `div` 4096) 64), (Z.div_mod (n `div` 4096) 64) by lia.
    rewrite !Z.div_div by lia. change (4096 * 64)%Z with 262144%Z. lia. }
  assert (m `div` 64 = n `div` 64)%Z as E6.
  { rewrite (Z.div_mod (m `div` 64) 64), (Z.div_mod (n `div` 64) 64) by lia.
    rewrite !Z.div_div by lia. change (64 * 64)%Z with 4096%Z. lia. }
  rewrite (Z.div_mod m 64), (Z.div_mod n 64) by lia. lia.
Qed.

Lemma base64Encode_one a :
  base64Encode (String a EmptyString)
  = String (sextet (Z.shiftr (byte a * 65536) 18))
      (String (sextet (Z.shiftr (byte a * 65536) 12)) "==").
Proof.
  change (base64Encode (String a EmptyString))
    with (let n := Z.shiftl (byte a) 16 in
          String (sextet (Z.shiftr n 18)) (String (sextet (Z.shiftr n 12)) "==")).
  pose proof (byte_range a). cbv zeta. by rewrite Z.shiftl_mul_pow2 by lia.
Qed.

Lemma base64Encode_two a b :
  base64Encode (String a (String b EmptyString))
  = let n := (byte a * 65536 + byte b * 256)%Z in
    String (sextet (Z.shiftr n 18)) (String (sextet (Z.shiftr n 12))
      (String (sextet (Z.shiftr n 6)) "=")).
Proof.
  change (base64Encode (String a (String b EmptyString)))
    with (let n := Z.lor (Z.shiftl (byte a) 16) (Z.shiftl (byte b) 8) in
          String (sextet (Z.shiftr n 18)) (String (sextet (Z.shiftr n 12))
            (String (sextet (Z.shiftr n 6)) "="))).
  by rewrite pack2.
Qed.

Lemma base64Encode_three a b c s :
  base64Encode (String a (String b (String c s)))
  = let n := (byte a * 65536 + byte b * 256 + byte c)%Z in
    String (sextet (Z.shiftr n 18)) (String (sextet (Z.shiftr n 12))
      (String (sextet (Z.shiftr n 6)) (String (sextet n) (base64Encode s)))).
Proof. by rewrite base64Encode_chunk, pack3. Qed.

Lemma sextet_mod k : sextet k = sextet (k mod 64).
Proof. unfold sextet. rewrite !land_63. by rewrite Z.mod_mod. Qed.

(** The low sextets of a number whose low bits are clear. *)
Lemma sextet_clear m n :
  (m mod 64 = 0)%Z → (n mod 64 = 0)%Z → sextet m = sextet n.
Proof. intros Hm Hn. by rewrite (sextet_mod m), (sextet_mod n), Hm, Hn. Qed.

(** Different strings have different encodings: the header tells the
    credentials apart. *)
Theorem base64Encode_inj (s t : string) :
  base64Encode s = base64Encode t → s = t.
Proof.
  revert t. induction s as [|a|a b|a b c s IH] using string_chunks_ind;
    intros [|a' [|b' [|c' t]]];
    rewrite ?base64Encode_one, ?base64Encode_two, ?base64Encode_three;
    cbv zeta; intros H; try done;
    repeat (match type of H with
            | String _ _ = String _ _ =>
                let Hc := fresh "Hc" in injection H as Hc H
            end);
    try (match goal with
         | Hx : sextet _ = "="%char |- _ => by destruct (sextet_not_pad _ Hx)
         | Hx : "="%char = sextet _ |- _ =>
             symmetry in Hx; by destruct (sextet_not_pad _ Hx)
         end).
  - pose proof (byte_range a). pose proof (byte_range a').
    assert (byte a * 65536 = byte a' * 65536)%Z as E.
    { apply sextets_give_number; try done; try lia.
      - apply sextet_clear; rewrite Z.shiftr_div_pow2 by lia;
          change (2 ^ 6)%Z with 64%Z; Z.to_euclidean_division_equations; lia.
      - apply sextet_clear; Z.to_euclidean_division_equations; lia. }
    f_equal. apply byte_inj. lia.
  - pose proof (byte_range a). pose proof (byte_range a').
    pose proof (byte_range b). pose proof (byte_range b').
    assert (byte a * 65536 + byte b * 256
            = byte a' * 65536 + byte b' * 256)%Z as E.
    { apply sextets_give_number; try done; try lia.
      apply sextet_clear; Z.to_euclidean_division_equations; lia. }
    assert (byte a = byte a' ∧ byte b = byte b') as [Ea Eb] by lia.
    by rewrite (byte_inj _ _ Ea), (byte_inj _ _ Eb).
  - pose proof (byte_range a). pose proof (byte_range a').
    pose proof (byte_range b). pose proof (byte_range b').
    pose proof (byte_range c). pose proof (byte_range c').
    assert (byte a * 65536 + byte b * 256 + byte c
            = byte a' * 65536 + byte b' * 256 + byte c')%Z as E
      by (apply sextets_give_number; try done; lia).
    assert (byte a = byte a' ∧ byte b = byte b' ∧ byte c = byte c')
      as (Ea & Eb & Ec) by lia.
    by rewrite (byte_inj _ _ Ea), (byte_inj _ _ Eb), (byte_inj _ _ Ec), (IH t).
Qed.

(** The header of user 7 belongs to no other credentials. *)
Lemma base64Encode_inj_witness :
  base64Encode "7:5ha11000" = "Nzo1aGExMTAwMA=="
  ∧ ∀ s, base64Encode s = "Nzo1aGExMTAwMA==" → s = "7:5ha11000".
Proof.
  split; [reflexivity|]. intros s Hs.
  apply base64Encode_inj. rewrite Hs. reflexivity.
Defined.

End AjaxBase64.

(* ================================================================== *)
(** ** lib/mail.js: what the parser does with unusual strings *)
(* ================================================================== *)

Module MailParser.
Import Mail.

Section Parser.

Variable StringToNumber : string → option Z.

Local Abbreviation smtpConfig := (smtpConfig StringToNumber).
Local Abbreviation add_secure := (add_secure StringToNumber).

(** Of a pair with two equals signs only what stands between them is
    stored: the configuration is the one of the key and the text up to the
    second equals sign, so a value cannot contain an equals sign. *)
Theorem value_cut_at_equals (k a b : string) :
  let pair := k +:+ String "=" (a +:+ String "=" b) in
  JsString.has ";" pair = false →
  JsString.trim pair = pair →
  JsString.has "=" k = false →
  JsString.has "=" a = false →
  smtpKeyVal pair = [k :: a :: JsString.split "=" b]
  ∧ smtpConfig pair = (config ← reduce_step ∅ [k; a] ;;; add_secure config).
Proof.
  intros pair Hsemi Htrim Hk Ha.
  assert (smtpKeyVal pair = [k :: a :: JsString.split "=" b]) as Hsegs.
  { unfold smtpKeyVal. rewrite (JsStringFacts.split_absent _ _ Hsemi). simpl.
    rewrite Htrim. unfold pair.
    by rewrite (JsStringFacts.split_app _ _ _ Hk), (JsStringFacts.split_app _ _ _ Ha). }
  split; [done|]. unfold Mail.smtpConfig. rewrite Hsegs.
  change (reduce ∅ [k :: a :: JsString.split "=" b])
    with (config ← reduce_step ∅ [k; a] ;;; Done config).
  by destruct (reduce_step ∅ [k; a]).
Qed.

(** A semicolon at the end of the string adds a property whose name is
    the empty string and whose value is undefined. *)
Theorem trailing_semicolon (env : string) (config : Config) :
  smtpConfig (env +:+ ";") = Done config →
  config !! EmptyString = Some VUndef.
Proof.
  unfold Mail.smtpConfig, smtpKeyVal.
  rewrite JsStringFacts.split_snoc, fmap_app. simpl.
  rewrite MailConfig.reduce_app.
  intros (c & (c' & Hc' & Hstep)%bind_done & Hsec)%bind_done.
  simpl in Hstep. injection Hstep as <-.
  rewrite (MailConfig.add_secure_other _ _ _ _ Hsec) by done.
  by apply MailConfig.lookup_set_own.
Qed.

(** A dotted key cannot follow a plain key of the same name that has a
    value: the parser throws, and no transport is created. The name
    [__proto__] is apart: as a plain key it stores nothing, and as the
    second part of a key it is not written. *)
Theorem dotted_after_plain_throws (env : string)
    (pre mid post : list (list string)) (key v key' a b : string)
    (rest rest' more : list string) :
  smtpKeyVal env = pre ++ (key :: v :: rest) :: mid ++ (key' :: rest') :: post →
  JsString.split "." key = [a] →
  v ≠ EmptyString →
  Forall (λ kv, head_key kv ≠ a) mid →
  JsString.split "." key' = a :: b :: more →
  a ≠ "__proto__" →
  b ≠ "__proto__" →
  ∃ e, smtpConfig env = Throws e
       ∧ transporter StringToNumber None (Some env) = Throws e.
Proof.
  intros Hsegs Hkey Hv Hmid Hkey' Ha Hb.
  destruct (MailConfig.plain_then_dotted pre key v rest mid key' rest' post a b more)
    as [e He]; [done..|].
  exists e. unfold transporter, Mail.smtpConfig. by rewrite Hsegs, He.
Qed.

End Parser.

(** A password that ends in padding. *)
Lemma value_cut_at_equals_witness :
  smtpKeyVal "pass=c2VjcmV0==" = [["pass"; "c2VjcmV0"; EmptyString; EmptyString]]
  ∧ Mail.smtpConfig decimal "pass=c2VjcmV0=="
    = Done (plain {[ "pass" := VStr "c2VjcmV0" ]}).
Proof.
  destruct (value_cut_at_equals decimal "pass" "c2VjcmV0" "=") as [H1 H2];
    [reflexivity..|].
  split; [exact H1 | exact H2].
Defined.

Lemma trailing_semicolon_witness :
  Mail.smtpConfig decimal "service=gmail;"
  = Done (plain (<["service" := VStr "gmail"]> {[ EmptyString := VUndef ]}))
  ∧ plain (<["service" := VStr "gmail"]> {[ EmptyString := VUndef ]})
      !! EmptyString = Some VUndef.
Proof.
  assert (Mail.smtpConfig decimal ("service=gmail" +:+ ";")
          = Done (plain (<["service" := VStr "gmail"]> {[ EmptyString := VUndef ]})))
    as H by (vm_compute; reflexivity).
  split; [exact H|].
  exact (trailing_semicolon decimal "service=gmail" _ H).
Defined.

(** The name auth used for a value and for a group. *)
Lemma dotted_after_plain_throws_witness :
  ∃ e, Mail.smtpConfig decimal "auth=x; auth.user=me" = Throws e
       ∧ transporter decimal None (Some "auth=x; auth.user=me") = Throws e.
Proof.
  apply (dotted_after_plain_throws decimal "auth=x; auth.user=me"
           [] [] [] "auth" "x" "auth.user" "auth" "user" [] ["me"] []);
    [reflexivity | reflexivity | discriminate | constructor | reflexivity
    | discriminate | discriminate].
Defined.

Example empty_connection_string :
  Mail.smtpConfig decimal EmptyString = Done (plain {[ EmptyString := VUndef ]}).
Proof. vm_compute. reflexivity. Qed.

Example password_with_equals :
  Mail.smtpConfig decimal "auth.user=me; auth.pass=c2VjcmV0=="
  = Done (plain {[ "auth" := VObj (<["user" := VStr "me"]>
                                   {[ "pass" := VStr "c2VjcmV0" ]}) ]}).
Proof. vm_compute. reflexivity. Qed.

(** After a plain key with a value, [__proto__] as the second part of a
    key is the one thing that can be assigned. *)
Example proto_on_string :
  Mail.smtpConfig decimal "auth=x; auth.__proto__=y"
  = Done (plain {[ "auth" := VStr "x" ]}).
Proof. vm_compute. reflexivity. Qed.

End MailParser.

(* ================================================================== *)
(** ** lib/mail.js: the transport and the delivery *)
(* ================================================================== *)

Module MailDelivery.
Import Mail.

Section Senders.

Variable StringToNumber : string → option Z.
Variable User_get : Z → option User.
Variable readFile : string → outcome string.
Variable Context : Type.
Variable handlebars : string → Context → outcome string.
Variable title : string → option string.
Variable htmlToText : string → string.

Local Abbreviation sendMail := (sendMail StringToNumber).
Local Abbreviation send env it :=
  (send StringToNumber env it User_get readFile Context handlebars title htmlToText).
Local Abbreviation sendHtml env it :=
  (sendHtml StringToNumber env it User_get htmlToText).
Local Abbreviation sendText env it := (sendText StringToNumber env it User_get).

(** The transport is created once: after a message has been handed over,
    every later message is handed to the same transport, whatever
    SMTP_CONNECTION has become. *)
Theorem transport_created_once (env1 env2 : option string) (m1 m2 : Message)
    (w w1 : World) :
  sendMail env1 m1 w = (Done tt, w1) →
  is_Some (transport w1)
  ∧ sendMail env2 m2 w1
    = (Done tt, {| transport := transport w1; outbox := outbox w1 ++ [m2] |}).
Proof.
  unfold Mail.sendMail, transporter.
  destruct (transport w) as [t|] eqn:Ht.
  - intros [= <-]. simpl. split; [by eexists|done].
  - destruct env1 as [env|]; [|done].
    destruct (smtpConfig StringToNumber env) as [t|e]; [|done].
    simpl. intros [= <-]. simpl. split; [by eexists|done].
Qed.

(** In production a message goes to the recipient the caller names, from
    the fixed sender and without extra headers; the logged-in user plays
    no part. *)
Theorem production_delivery (env : option string) (to0 subject0 body : string)
    (ctx : Ctx) (w : World) (t : Config) (cache : option Config) :
  app_env ctx = "production" →
  transporter StringToNumber (transport w) env = Done (t, cache) →
  sendText env false to0 subject0 body ctx w
  = (Done tt,
     {| transport := cache;
        outbox := outbox w ++ [ {| to := to0; from := "noreply@movable-type.co.uk";
                                   subject := subject0; html := None; text := body;
                                   headers := [] |} ] |})
  ∧ sendHtml env false to0 subject0 body ctx w
    = (Done tt,
       {| transport := cache;
          outbox := outbox w ++ [ {| to := to0; from := "noreply@movable-type.co.uk";
                                     subject := subject0; html := Some body;
                                     text := htmlToText body; headers := [] |} ] |}).
Proof.
  intros Henv Ht.
  unfold Mail.sendText, Mail.sendHtml, dispatch, bindM, ret, Mail.sendMail.
  rewrite Henv. simpl. by rewrite Ht.
Qed.

(** [Mail.send] sends nothing and throws when the template cannot be read
    or its page has no title, in every environment. *)
Theorem send_needs_template (env : option string) (to0 template : string)
    (context : Context) (ctx : Ctx) (w : World) :
  (∀ e, readFile ("app-admin/templates/" +:+ template +:+ ".html") = Throws e →
        send env false to0 template context ctx w = (Throws e, w))
  ∧ (∀ templateHtml page,
       readFile ("app-admin/templates/" +:+ template +:+ ".html") = Done templateHtml →
       handlebars templateHtml context = Done page →
       title page = None →
       ∃ e, send env false to0 template context ctx w = (Throws e, w)).
Proof.
  split.
  - intros e He. unfold Mail.send, bindM, lift. by rewrite He.
  - intros templateHtml page Hfile Hpage Htitle. eexists.
    unfold Mail.send, bindM, lift. rewrite Hfile, Hpage, Htitle. reflexivity.
Qed.

(** Without SMTP_CONNECTION, and before any transport exists, no sender
    changes the outbox or the transport; in production the attempt
    throws. *)
Theorem no_connection_no_mail (it : bool) (to0 template subject0 body : string)
    (context : Context) (ctx : Ctx) (w : World) :
  transport w = None →
  (send None it to0 template context ctx w).2 = w
  ∧ (sendHtml None it to0 subject0 body ctx w).2 = w
  ∧ (sendText None it to0 subject0 body ctx w).2 = w
  ∧ (app_env ctx = "production" →
     ∃ e, sendText None false to0 subject0 body ctx w = (Throws e, w)).
Proof.
  intros Ht.
  assert (∀ m, (sendMail None m w).2 = w) as Hmail.
  { intros m. unfold Mail.sendMail, transporter. by rewrite Ht. }
  assert (∀ m, (dispatch StringToNumber None User_get to0 m ctx w).2 = w) as Hd.
  { intros m. unfold dispatch.
    destruct (negb (String.eqb (app_env ctx) "production")
              && negb (bool_decide (is_Some (state_user ctx)))); [done|].
    unfold bindM.
    destruct (negb (String.eqb (app_env ctx) "production")); [|apply Hmail].
    destruct (state_user ctx) as [id|]; [|done].
    destruct (User_get id); [apply Hmail|done]. }
  split_and!.
  - unfold Mail.send. destruct it; [done|]. unfold bindM, lift.
    destruct (readFile _) as [templateHtml|]; [|done].
    destruct (handlebars _ _) as [page|]; [|done].
    destruct (title page); [apply Hd|done].
  - unfold Mail.sendHtml. destruct it; [done|apply Hd].
  - unfold Mail.sendText. destruct it; [done|apply Hd].
  - intros Henv. eexists.
    unfold Mail.sendText, dispatch, bindM, ret, Mail.sendMail, transporter.
    rewrite Henv. simpl. rewrite Ht. reflexivity.
Qed.

End Senders.

(** The first message creates the transport; the second is sent although
    SMTP_CONNECTION is gone. *)
Lemma transport_created_once_witness :
  let hello := {| to := "a@example.org"; from := "noreply@movable-type.co.uk";
                  subject := "Hello"; html := None; text := "Hello";
                  headers := [] |} in
  let w1 := (sendMail decimal (Some "service=gmail") hello MailSample.world).2 in
  sendMail decimal (Some "service=gmail") hello MailSample.world = (Done tt, w1)
  ∧ sendMail decimal None hello w1
    = (Done tt, {| transport := transport w1; outbox := [hello; hello] |}).
Proof.
  intros hello w1. split; [reflexivity|].
  destruct (transport_created_once decimal (Some "service=gmail") None hello hello
              MailSample.world w1) as [_ H]; [reflexivity|].
  exact H.
Defined.

Lemma production_delivery_witness :
  let ctx := {| app_env := "production"; state_user := None |} in
  app_env ctx = "production"
  ∧ sendText decimal (Some "service=gmail") false MailSample.User_get
      "guest@example.org" "Hello" "Welcome" ctx MailSample.world
    = (Done tt,
       {| transport := Some (plain {[ "service" := VStr "gmail" ]});
          outbox := [ {| to := "guest@example.org";
                         from := "noreply@movable-type.co.uk";
                         subject := "Hello"; html := None; text := "Welcome";
                         headers := [] |} ] |}).
Proof.
  intros ctx. split; [reflexivity|].
  destruct (production_delivery decimal MailSample.User_get MailSample.htmlToText
              (Some "service=gmail") "guest@example.org" "Hello" "Welcome" ctx
              MailSample.world (plain {[ "service" := VStr "gmail" ]})
              (Some (plain {[ "service" := VStr "gmail" ]}))) as [H _];
    [reflexivity | vm_compute; reflexivity |].
  exact H.
Defined.

(** A template that is not in the templates directory. *)
Lemma send_needs_template_witness :
  let ctx := {| app_env := "production"; state_user := None |} in
  let enoent := {| err_status := None; err_message := Some "ENOENT";
                   err_stack := None |} in
  MailSample.readFile "app-admin/templates/goodbye.html" = Throws enoent
  ∧ send decimal (Some "service=gmail") false MailSample.User_get
      MailSample.readFile unit MailSample.handlebars MailSample.title
      MailSample.htmlToText "guest@example.org" "goodbye" tt ctx MailSample.world
    = (Throws enoent, MailSample.world).
Proof.
  intros ctx enoent. split; [reflexivity|].
  destruct (send_needs_template decimal MailSample.User_get MailSample.readFile
              unit MailSample.handlebars MailSample.title MailSample.htmlToText
              (Some "service=gmail") "guest@example.org" "goodbye" tt ctx
              MailSample.world) as [H _].
  apply H. reflexivity.
Defined.

Lemma no_connection_no_mail_witness :
  let ctx := {| app_env := "production"; state_user := None |} in
  transport MailSample.world = None
  ∧ ∃ e, sendText decimal None false MailSample.User_get
           "guest@example.org" "Hello" "Welcome" ctx MailSample.world
         = (Throws e, MailSample.world).
Proof.
  intros ctx. split; [reflexivity|].
  destruct (no_connection_no_mail decimal MailSample.User_get MailSample.readFile
              unit MailSample.handlebars MailSample.title MailSample.htmlToText
              false "guest@example.org" "welcome" "Hello" "Welcome" tt ctx
              MailSample.world) as (_ & _ & _ & H); [reflexivity|].
  apply H. reflexivity.
Defined.

End MailDelivery.

(* ================================================================== *)
(** ** app-www/app-www.js: the stack as a whole *)
(* ================================================================== *)

Module WwwStack.
Import Www.

Lemma trim_end_idem s : JsString.trim_end (JsString.trim_end s) = JsString.trim_end s.
Proof.
  induction s as [|c s IH]; [done|]. simpl.
  destruct (JsString.trim_end s) as [|c' r] eqn:Hr.
  - destruct (JsString.is_white c) eqn:Hc; [done|]. simpl. by rewrite Hc.
  - change (JsString.trim_end (String c (String c' r)))
      with (match JsString.trim_end (String c' r) with
            | EmptyString =>
                if JsString.is_white c then EmptyString else String c EmptyString
            | r' => String c r'
            end).
    by rewrite IH.
Qed.

(** Trimming the end leaves a first character that is no white space in
    place. *)
Lemma trim_start_trim_end s :
  JsString.trim_start (JsString.trim_end (JsString.trim_start s))
  = JsString.trim_end (JsString.trim_start s).
Proof.
  induction s as [|c s IH]; [done|]. simpl.
  destruct (JsString.is_white c) eqn:Hc; [done|]. simpl.
  destruct (JsString.trim_end s); simpl; rewrite ?Hc; simpl; by rewrite ?Hc.
Qed.

Lemma trim_idem s : JsString.trim (JsString.trim s) = JsString.trim s.
Proof.
  unfold JsString.trim. by rewrite trim_start_trim_end, trim_end_idem.
Qed.

Lemma clean_idem v : clean (clean v) = clean v.
Proof.
  destruct v as [| |s| | |]; try done. simpl.
  destruct (String.eqb (JsString.trim s) EmptyString) eqn:Hs; [done|].
  simpl. by rewrite trim_idem, Hs.
Qed.

Lemma cleaned_idem o o' : cleaned o = Done o' → cleaned o' = Done o'.
Proof.
  unfold cleaned.
  destruct (bool_decide (is_Some (o !! "fields")) && bool_decide (is_Some (o !! "files")))
    eqn:Hmulti.
  - apply andb_prop in Hmulti as [Hfields Hfiles].
    destruct (get o "fields") as [| |s| | |fields] eqn:Hget;
      try (intros [= <-]; by rewrite Hfields, Hfiles, Hget).
    + destruct (String.eqb s EmptyString) eqn:Hs; [|done].
      intros [= <-]. by rewrite Hfields, Hfiles, Hget, Hs.
    + intros [= <-].
      apply bool_decide_eq_true in Hfiles as [files Hfiles].
      rewrite lookup_insert_eq, lookup_insert_ne, Hfiles by done.
      rewrite !bool_decide_eq_true_2 by eauto. simpl.
      unfold get. rewrite lookup_insert_eq. simpl.
      rewrite insert_insert_eq. do 3 f_equal.
      apply map_eq. intros k. rewrite !lookup_fmap.
      destruct (fields !! k); simpl; [|done]. by rewrite clean_idem.
  - intros [= <-].
    assert (bool_decide (is_Some ((clean <$> o) !! "fields"))
            && bool_decide (is_Some ((clean <$> o) !! "files")) = false) as ->.
    { etrans; [|exact Hmulti]. rewrite !lookup_fmap.
      f_equal; apply bool_decide_ext; by rewrite fmap_is_Some. }
    f_equal. apply map_eq. intros k. rewrite !lookup_fmap.
    destruct (o !! k); simpl; [|done]. by rewrite clean_idem.
Qed.

(** Cleaning the posted data twice is cleaning it once: a second
    [cleanPost] in the stack changes nothing. *)
Theorem cleanPost_idempotent (next : M Ctx unit) (c : Ctx) :
  cleanPost (cleanPost next) c = cleanPost next c.
Proof.
  rewrite (WwwApp.cleanPost_cases (cleanPost next)), (WwwApp.cleanPost_cases next).
  destruct (request_body c) as [| | | | |o] eqn:Hbody; try done.
  destruct (cleaned o) as [o'|e] eqn:Ho; [|done].
  rewrite WwwApp.cleanPost_cases. simpl. by rewrite (cleaned_idem _ _ Ho).
Qed.

Section App.

Variable codes : StatusCodes.
Variable env : string.
Variable public : string → option string.
Variable handlebars flash lusca routes : Middleware.

Local Abbreviation handleErrors := (handleErrors codes env).
Local Abbreviation app := (app codes env public handlebars flash lusca routes).

Local Abbreviation served := (served public).

(** Posted data that is defined and no object (a text body, null) is
    answered with the 500 page: the error of the [in] operator is caught,
    and the rest of the stack does not run. *)
Theorem primitive_body_is_500 (next : M Ctx unit) (c : Ctx) :
  request_body c ≠ VUndef →
  (∀ o, request_body c ≠ VObj o) →
  ∃ err,
    handleErrors (cleanPost next) c
    = (Done tt,
       {| method := method c; host := host c; path := path c;
          request_body := request_body c; status := 500;
          body := Rendered "500-internal-server-error" err;
          state_domain := state_domain c; clock := clock c;
          log_access := log_access c;
          log_error := capped 1000 (log_error c) err |}).
Proof.
  intros Hdef Hobj. eexists.
  rewrite (WwwApp.handleErrors_catch codes env (cleanPost next) c c
             (TypeError "Cannot use 'in' operator to search for 'fields'")).
  - reflexivity.
  - rewrite WwwApp.cleanPost_cases.
    destruct (request_body c) as [| | | | |o]; try done. by destruct (Hobj o).
  - apply valid_500.
Qed.


(** With a templating middleware that only passes the request on, a
    request that koa-static does not answer, and on which the stages under
    the error handler throw no error whose status is no status code, never
    makes the app throw, and is the newest line of the access log, with
    the final status and the time the rest of the stack took, also when a
    handler threw. An error whose status is no status code leaves the app
    as another error, and no line is written. *)
Theorem dynamic_request_logged (c : Ctx) :
  (∀ next c0, handlebars next c0 = next c0) →
  served c = false →
  let handled := cleanPost (flash (lusca (ctxAddDomain (routes (notFound (ret tt)))))) in
  ((∀ err c1, handled c = (Throws err, c1) →
              valid_status codes (status_or_500 err) = true) →
   let c' := (app c).2 in
   (app c).1 = Done tt
   ∧ last (log_access c')
     = Some {| acc_method := method c'; acc_host := host c'; acc_path := path c';
               acc_status := status c'; acc_ms := clock c' - clock c |})
  ∧ (∀ err c1, handled c = (Throws err, c1) →
               valid_status codes (status_or_500 err) = false →
               ∃ e, app c = (Throws e, c1) ∧ e ≠ err).
Proof.
  intros Hpass Hserved handled.
  assert (app c = logAccess (handleErrors handled) c) as ->.
  { unfold Www.app, stack. simpl. rewrite WwwApp.serve_passes by done.
    unfold logAccess, bindM, read. cbn beta iota. by rewrite Hpass. }
  split.
  - intros Hvalid.
    assert (∃ c1, handleErrors handled c = (Done tt, c1)) as [c1 Hrest].
    { destruct (handled c) as [[[]|err] c1] eqn:Hhandled.
      - exists c1. by apply WwwApp.handleErrors_pass.
      - eexists. apply (WwwApp.handleErrors_catch codes env handled c c1 err Hhandled).
        by eapply Hvalid. }
    rewrite (WwwApp.logAccess_done _ c c1 Hrest). simpl.
    split; [done|]. apply WwwApp.capped_last.
  - intros err c1 Hhandled Hvalid. eexists. split.
    + apply WwwApp.logAccess_throws.
      by apply WwwApp.handleErrors_reject.
    + intros Heq. rewrite <- Heq in Hvalid.
      unfold status_or_500 in Hvalid. simpl in Hvalid.
      by rewrite valid_500 in Hvalid.
Qed.

(** A request that nothing answers gets the 404 page: when the third-party
    stages and the router pass it on, the status is 404, the page is the
    404-not-found template with the message cleared, and the error log and
    the access log each have a new line. *)
Theorem unmatched_request_is_404 (c : Ctx) :
  (∀ next c0, handlebars next c0 = next c0) →
  (∀ next c0, flash next c0 = next c0) →
  (∀ next c0, lusca next c0 = next c0) →
  (∀ next, routes next (set_domain (JsString.replace "www." EmptyString (host c)) c)
           = next (set_domain (JsString.replace "www." EmptyString (host c)) c)) →
  served c = false →
  request_body c = VUndef →
  let err := {| err_status := Some 404%Z; err_message := None;
                err_stack := if String.eqb env "production" then None
                             else Some "NotFoundError: Not Found" |} in
  app c
  = (Done tt,
     {| method := method c; host := host c; path := path c;
        request_body := VUndef; status := 404;
        body := Rendered "404-not-found" err;
        state_domain := JsString.replace "www." EmptyString (host c);
        clock := clock c;
        log_access := capped 1000 (log_access c)
                        {| acc_method := method c; acc_host := host c;
                           acc_path := path c; acc_status := 404;
                           acc_ms := clock c - clock c |};
        log_error := capped 1000 (log_error c) err |}).
Proof.
  intros Hh Hf Hl Hr Hserved Hbody err.
  set (c0 := set_domain (JsString.replace "www." EmptyString (host c)) c) in *.
  set (rest := cleanPost (flash (lusca (ctxAddDomain (routes (notFound (ret tt))))))).
  assert (rest c = (Throws http_404, c0)) as Hrest.
  { unfold rest. rewrite WwwApp.cleanPost_cases, Hbody, Hf, Hl.
    unfold ctxAddDomain, bindM, modify. fold c0. by rewrite Hr. }
  assert (app c = logAccess (handleErrors rest) c) as ->.
  { unfold Www.app, stack. simpl. rewrite WwwApp.serve_passes by done.
    unfold logAccess, bindM, read. cbn beta iota. by rewrite Hh. }
  erewrite WwwApp.logAccess_done;
    [|by rewrite (WwwApp.handleErrors_catch codes env rest c c0 http_404 Hrest
                    (valid_404 codes))].
  simpl. rewrite Hbody. unfold err.
  by destruct (String.eqb env "production").
Qed.

End App.

(** A text body posted to the sample site. *)
Lemma primitive_body_is_500_witness :
  let c := WwwSample.request "POST" "/" (VStr "hello") in
  status (handleErrors WwwSample.codes "development"
            (cleanPost (WwwSample.routes (ret tt))) c).2
  = 500%Z.
Proof.
  intros c.
  destruct (primitive_body_is_500 WwwSample.codes "development"
              (WwwSample.routes (ret tt)) c)
    as [err ->]; [discriminate | discriminate |].
  reflexivity.
Defined.


(** A handler that throws is still a line of the access log. *)
Lemma dynamic_request_logged_witness :
  let c := WwwSample.request "GET" "/broken" VUndef in
  served WwwSample.public c = false
  ∧ (WwwSample.app "development" c).1 = Done tt
  ∧ last (log_access (WwwSample.app "development" c).2)
    = Some {| acc_method := "GET"; acc_host := "www.example.com";
              acc_path := "/broken"; acc_status := 500; acc_ms := 0 |}.
Proof.
  intros c. split; [reflexivity|].
  destruct (dynamic_request_logged WwwSample.codes "development" WwwSample.public
              WwwSample.pass WwwSample.pass WwwSample.pass WwwSample.routes c)
    as [H _]; [reflexivity | reflexivity |].
  destruct H as [H1 H2].
  { intros err c1 [= <- _]. reflexivity. }
  unfold WwwSample.app. split; [exact H1|]. rewrite H2. reflexivity.
Defined.

Lemma unmatched_request_is_404_witness :
  let c := WwwSample.request "GET" "/nowhere" VUndef in
  served WwwSample.public c = false
  ∧ request_body c = VUndef
  ∧ status (WwwSample.app "production" c).2 = 404%Z
  ∧ body (WwwSample.app "production" c).2
    = Rendered "404-not-found"
        {| err_status := Some 404%Z; err_message := None; err_stack := None |}.
Proof.
  intros c. split; [reflexivity|]. split; [reflexivity|].
  unfold WwwSample.app.
  rewrite (unmatched_request_is_404 WwwSample.codes "production" WwwSample.public WwwSample.pass
             WwwSample.pass WwwSample.pass WwwSample.routes c);
    [split; reflexivity | reflexivity..].
Defined.

End WwwStack.

(* ================================================================== *)
(** ** app-admin/handlers/dev.js: what the viewers show *)
(* ================================================================== *)

Module DevDisplay.
Import Dev.

Lemma oldest_from (init : Z) (l : list Entry) :
  let r := foldl (λ old e, if (timestamp e <? old)%Z then timestamp e else old) init l in
  (r ≤ init)%Z
  ∧ (∀ e, e ∈ l → (r ≤ timestamp e)%Z)
  ∧ (r = init ∨ ∃ e, e ∈ l ∧ r = timestamp e).
Proof.
  revert init. induction l as [|x l IH]; intros init; simpl.
  - split_and!; [lia | by intros e ?%elem_of_nil | by left].
  - specialize (IH (if (timestamp x <? init)%Z then timestamp x else init)).
    simpl in IH. destruct IH as (Hle & Hall & Hex).
    destruct (timestamp x <? init)%Z eqn:Hx;
      [apply Z.ltb_lt in Hx | apply Z.ltb_ge in Hx].
    + split_and!; [lia| |].
      * intros e [->|He]%elem_of_cons; [done | by apply Hall].
      * right. destruct Hex as [->|(e & He & ->)].
        -- exists x. split; [left|done].
        -- exists e. split; [by right|done].
    + split_and!; [done| |].
      * intros e [->|He]%elem_of_cons; [lia | by apply Hall].
      * destruct Hex as [->|(e & He & ->)]; [by left|].
        right. exists e. split; [by right|done].
Qed.

Lemma oldest_le (now : Z) (entriesAll : list Entry) (e : Entry) :
  e ∈ entriesAll → (oldest now entriesAll ≤ timestamp e)%Z.
Proof. intros He. by apply (oldest_from now entriesAll). Qed.

(** The date the form offers as minimum is the time of the oldest entry:
    no entry is older, it is not later than the current time, and it is
    the current time or the time stamp of an entry. *)
Theorem oldest_is_earliest (now : Z) (entriesAll : list Entry) :
  (oldest now entriesAll ≤ now)%Z
  ∧ (∀ e, e ∈ entriesAll → (oldest now entriesAll ≤ timestamp e)%Z)
  ∧ (oldest now entriesAll = now
     ∨ ∃ e, e ∈ entriesAll ∧ oldest now entriesAll = timestamp e).
Proof. apply oldest_from. Qed.

Lemma filter_sublist (p : Entry → bool) l : sublist (List.filter p l) l.
Proof.
  induction l as [|x l IH]; simpl; [constructor|].
  destruct (p x); by constructor.
Qed.

Lemma filterM_sublist p l r : filterM p l = Done r → sublist r l.
Proof.
  revert r. induction l as [|x l IH]; intros r; simpl.
  - intros [= <-]. constructor.
  - intros (b & Hb & (r' & Hr' & [= <-])%bind_done)%bind_done.
    destruct b; constructor; by apply IH.
Qed.

(** The displayed path and query string of an entry. *)
Lemma path_of_query p q :
  JsString.has "?" p = false → path_of (p +:+ String "?" q) = p +:+ "?…".
Proof.
  intros Hp. unfold path_of. rewrite (JsStringFacts.split_app _ _ _ Hp). simpl.
  pose proof (JsStringFacts.split_nonempty "?" q).
  destruct (JsString.split "?" q); [done|].
  rewrite bool_decide_eq_true_2; [done|]. simpl. lia.
Qed.

Lemma app_empty s : s +:+ EmptyString = s.
Proof.
  induction s as [|c s IH]; [done|]. by rewrite JsStringFacts.app_String, IH.
Qed.

Lemma path_of_plain url0 :
  JsString.has "?" url0 = false → path_of url0 = url0.
Proof.
  intros Hp. unfold path_of. rewrite (JsStringFacts.split_absent _ _ Hp). simpl.
  apply app_empty.
Qed.

Section Viewers.

Variable engine : string → string → outcome bool.
Variable ToNumber : string → option Qc.
Variable dateFormat : Z → string → string.
Variable Date_parse : string → option Z.
Variable addDay : Z → Z.
Variable monthBefore : Z → Z.

Local Abbreviation RegExp_test := (RegExp_test engine).
Local Abbreviation defaults := (defaults dateFormat monthBefore).
Local Abbreviation from_test := (from_test Date_parse).
Local Abbreviation to_test := (to_test Date_parse addDay).
Local Abbreviation annotate := (annotate ToNumber dateFormat).
Local Abbreviation logAccess :=
  (logAccess engine ToNumber dateFormat Date_parse addDay monthBefore).
Local Abbreviation logError :=
  (logError ToNumber dateFormat Date_parse addDay monthBefore).

(** The viewers show entries of the collection in the order of the
    collection, each at most as often as it is stored. *)
Theorem shown_in_order (now : Z) (entriesAll : list Entry) (query0 : Query) :
  sublist (shown (logError now entriesAll query0)) entriesAll
  ∧ ∀ context, logAccess now entriesAll query0 = Done context →
               sublist (shown context) entriesAll.
Proof.
  split.
  - unfold shown, Dev.logError. simpl. rewrite DevLogs.shown_annotate.
    etrans; apply filter_sublist.
  - intros context. unfold Dev.logAccess.
    intros (hosted & Hhosted & [= <-])%bind_done.
    unfold shown. simpl. rewrite DevLogs.shown_annotate.
    etrans; [apply filter_sublist|].
    etrans; [by eapply filterM_sublist|].
    etrans; apply filter_sublist.
Qed.

(** The path shown for an entry is its url up to the first question mark,
    marked when a query string follows, and the query string shown is what
    stands between the first and the second question mark. *)
Theorem displayed_path (speed : bool) (e : Entry) :
  (JsString.has "?" (url e) = false →
   d_path (annotate speed e) = url e ∧ d_qs (annotate speed e) = None)
  ∧ (∀ p q, url e = p +:+ String "?" q → JsString.has "?" p = false →
       d_path (annotate speed e) = p +:+ "?…"
       ∧ d_qs (annotate speed e) = Some (hd EmptyString (JsString.split "?" q))).
Proof.
  split.
  - intros Hno. simpl. rewrite (path_of_plain _ Hno).
    by rewrite (JsStringFacts.split_absent _ _ Hno).
  - intros p q Hurl Hp. simpl. rewrite Hurl, (path_of_query _ _ Hp).
    rewrite (JsStringFacts.split_app _ _ _ Hp).
    pose proof (JsStringFacts.split_nonempty "?" q).
    by destruct (JsString.split "?" q).
Qed.

(** An 'app' parameter that is no regular expression makes the access-log
    viewer throw as soon as an entry lies in the range of dates, and is
    harmless while none does. *)
Theorem pattern_error (now : Z) (entriesAll : list Entry) (query0 : Query) :
  let query := defaults now entriesAll query0 in
  let dated := List.filter (to_test query) (List.filter (from_test query) entriesAll) in
  (dated = [] →
   ∃ context, logAccess now entriesAll query0 = Done context ∧ shown context = [])
  ∧ (∀ e l err, dated = e :: l →
       given (app query0) = true →
       RegExp_test (default EmptyString (app query0)) (host e) = Throws err →
       logAccess now entriesAll query0 = Throws err).
Proof.
  intros query dated. split.
  - intros Hdated. eexists. unfold Dev.logAccess. fold query. fold dated.
    rewrite Hdated. simpl. split; reflexivity.
  - intros e l err Hdated Hgiven Herr. unfold Dev.logAccess. fold query. fold dated.
    rewrite Hdated. simpl. unfold app_test.
    change (app query) with (app query0). by rewrite Hgiven, Herr.
Qed.

(** Without parameters the viewers show every entry of the last month:
    when the day the default 'from' date names does not start after the
    instant it was made from, and the day of the default 'to' date ends
    after the current time, every entry stored between a month ago and now
    is shown. *)
Theorem last_month_shown (now : Z) (entriesAll : list Entry) (d1 d2 : Z) (e : Entry) :
  let query0 := {| from := None; to := None; app := None; time := None |} in
  let start := if (oldest now entriesAll <? monthBefore now)%Z
               then monthBefore now else oldest now entriesAll in
  Date_parse (dateFormat start "yyyy-mm-dd") = Some d1 →
  (d1 ≤ start)%Z →
  Date_parse (dateFormat now "yyyy-mm-dd") = Some d2 →
  (now ≤ addDay d2)%Z →
  e ∈ entriesAll →
  (monthBefore now ≤ timestamp e ≤ now)%Z →
  e ∈ shown (logError now entriesAll query0)
  ∧ ∃ context, logAccess now entriesAll query0 = Done context ∧ e ∈ shown context.
Proof.
  intros query0 start Hd1 Hle1 Hd2 Hle2 He [Hmonth Hnow].
  pose proof (oldest_le now entriesAll e He) as Hold.
  assert (start ≤ timestamp e)%Z as Hstart.
  { unfold start. destruct (_ <? _)%Z; lia. }
  assert (from_test (defaults now entriesAll query0) e = true) as Hfrom.
  { unfold Dev.from_test, Dev.defaults, or_default. simpl. fold start.
    destruct (JsString.truthy _); [|done].
    rewrite Hd1. simpl. apply Z.leb_le. lia. }
  assert (to_test (defaults now entriesAll query0) e = true) as Hto.
  { unfold Dev.to_test, Dev.defaults, toFilter, or_default. simpl.
    destruct (JsString.truthy _); [|done].
    rewrite Hd2. simpl. apply Z.leb_le. lia. }
  assert (e ∈ List.filter (to_test (defaults now entriesAll query0))
                (List.filter (from_test (defaults now entriesAll query0)) entriesAll))
    as Hdated.
  { by rewrite !DevLogs.elem_of_filter_bool. }
  split.
  - unfold shown, Dev.logError. simpl. by rewrite DevLogs.shown_annotate.
  - destruct (DevLogs.logAccess_total engine ToNumber dateFormat Date_parse addDay
                monthBefore now entriesAll query0) as [context Hcontext].
    { intros e'. by eexists. }
    exists context. split; [done|].
    revert Hcontext. unfold Dev.logAccess.
    intros (hosted & Hhosted & [= <-])%bind_done.
    unfold shown. simpl. rewrite DevLogs.shown_annotate.
    rewrite DevLogs.elem_of_filter_bool. split; [|done].
    by apply (DevLogs.filterM_done _ _ _ Hhosted).
Qed.

End Viewers.

(** The oldest entry of the sample collection is the visit of the API. *)
Lemma oldest_is_earliest_witness :
  DevSample.api_visit ∈ DevSample.log
  ∧ (oldest DevSample.now DevSample.log ≤ timestamp DevSample.api_visit)%Z.
Proof.
  assert (DevSample.api_visit ∈ DevSample.log) as Hin
    by (unfold DevSample.log; set_solver).
  split; [exact Hin|].
  destruct (oldest_is_earliest DevSample.now DevSample.log) as (_ & H & _).
  exact (H DevSample.api_visit Hin).
Defined.

Lemma shown_in_order_witness :
  let query := {| from := None; to := None; app := Some "a"; time := None |} in
  ∃ context,
    DevSample.logAccess query = Done context
    ∧ shown context = [DevSample.admin_visit; DevSample.api_visit]
    ∧ sublist (shown context) DevSample.log.
Proof.
  intros query.
  assert (∃ context, DevSample.logAccess query = Done context
                     ∧ shown context = [DevSample.admin_visit; DevSample.api_visit])
    as (context & Hcontext & Hshown)
    by (eexists; split; vm_compute; reflexivity).
  exists context. split; [exact Hcontext|]. split; [exact Hshown|].
  destruct (shown_in_order DevSample.engine DevSample.ToNumber DevSample.dateFormat
              DevSample.Date_parse DevSample.addDay DevSample.monthBefore
              DevSample.now DevSample.log query) as [_ H].
  exact (H context Hcontext).
Defined.

Lemma displayed_path_witness :
  url DevSample.www_visit = "/about" +:+ String "?" "x=1"
  ∧ JsString.has "?" "/about" = false
  ∧ d_path (annotate DevSample.ToNumber DevSample.dateFormat true DevSample.www_visit)
    = "/about?…"
  ∧ d_qs (annotate DevSample.ToNumber DevSample.dateFormat true DevSample.www_visit)
    = Some "x=1".
Proof.
  split; [reflexivity|]. split; [reflexivity|].
  destruct (displayed_path DevSample.ToNumber DevSample.dateFormat true
              DevSample.www_visit) as [_ H].
  exact (H "/about" "x=1" eq_refl eq_refl).
Defined.

(** An unbalanced parenthesis as 'app' parameter. *)
Lemma pattern_error_witness :
  let query := {| from := None; to := None; app := Some "("; time := None |} in
  ∃ err, DevSample.logAccess query = Throws err.
Proof.
  intros query. eexists.
  destruct (pattern_error DevSample.engine DevSample.ToNumber DevSample.dateFormat
              DevSample.Date_parse DevSample.addDay DevSample.monthBefore
              DevSample.now DevSample.log query) as [_ H].
  apply (H DevSample.www_visit [DevSample.admin_visit; DevSample.api_visit]);
    reflexivity.
Defined.

Lemma last_month_shown_witness :
  DevSample.api_visit ∈ DevSample.log
  ∧ DevSample.api_visit
    ∈ shown (DevSample.logError {| from := None; to := None; app := None;
                                   time := None |}).
Proof.
  assert (DevSample.api_visit ∈ DevSample.log) as Hin
    by (unfold DevSample.log; set_solver).
  split; [exact Hin|].
  destruct (last_month_shown DevSample.engine DevSample.ToNumber DevSample.dateFormat
              DevSample.Date_parse DevSample.addDay DevSample.monthBefore
              DevSample.now DevSample.log (99 * DevSample.day) (102 * DevSample.day)
              DevSample.api_visit) as [H _];
    [reflexivity | vm_compute; discriminate | reflexivity
    | vm_compute; discriminate | exact Hin | vm_compute; split; discriminate |].
  exact H.
Defined.

End DevDisplay.
